(** * Fortune Rush: the game rules engine and the room actor

    A shallow embedding of [apps/worker/src/game-engine.ts] (pure rules,
    tokens and credentials) and of the [GameRoom] Durable Object (the
    per-room state machine, its sockets and its public projection),
    followed by the properties established about them.

    Conventions of the embedding:
    - a JavaScript [number] holding a count, an index or a score is a [Z];
    - a [Record<string, 'STAY' | 'LEAVE'>] is a [gmap string Decision]
      (player ids are hexadecimal strings, so no key meets a property
      inherited from the object prototype);
    - [T | null] is [option T];
    - the two sources of non-determinism, [crypto.getRandomValues] and
      [Date.now], are explicit arguments; the clock is read once per
      request, so the events logged while serving it share a timestamp;
    - the actor serves one request at a time, from its first to its last
      statement; persisting and broadcasting leave the state alone and
      are not represented;
    - strings are taken over ASCII. *)

From Stdlib Require Import ZArith Lia Bool List Ascii String Sorted.
From Stdlib.Strings Require Import Byte.
From stdpp Require Import base tactics option list strings gmap fin_maps vector.

#[local] Open Scope Z_scope.

(** ** Types ([types.ts]) *)

Record Player : Type := mkPlayer {
  id : string;
  secret : string;
  nickname : string;
  points : Z;
  ready : bool;
  connected : bool
}.

Record RollResult : Type := mkRollResult {
  success : bool;
  value : Z;
  timestamp : Z
}.

Inductive Decision : Type := STAY | LEAVE.

Inductive Status : Type := LOBBY | PLAYING | FINISHED.

Inductive Phase : Type := WAIT_READY | CAPTAIN_TURN | DECISIONS | RESOLUTION.

#[global] Instance Decision_eq_dec : EqDecision Decision.
Proof. solve_decision. Defined.
#[global] Instance Status_eq_dec : EqDecision Status.
Proof. solve_decision. Defined.
#[global] Instance Phase_eq_dec : EqDecision Phase.
Proof. solve_decision. Defined.

(** The payloads that [logEvent] is called with, one constructor per
    call site of the actor. *)
Inductive EventData : Type :=
  | RoomCreatedData (stake maxPlayers : Z)
  | PlayerJoinedData (playerId nickname : string)
  | PlayerReadyData (playerId : string) (ready : bool)
  | GameStartedData (pot : Z)
  | CaptainRolledData (captainId : string) (roll : RollResult)
  | PlayerDecisionData (playerId : string) (decision : Decision)
  | RoundResolvedData (roll : RollResult) (decisions : gmap string Decision)
  | GameFinishedData (winnerId : string).

Record GameEvent : Type := mkGameEvent {
  ev_type : string;
  ev_timestamp : Z;
  ev_data : EventData
}.

Record RoomState : Type := mkRoomState {
  roomToken : string;
  status : Status;
  stake : Z;
  pot : Z;
  maxPlayers : Z;
  players : list Player;
  hostId : string;
  captainIndex : Z;
  phase : Phase;
  step : Z;
  maxSteps : Z;
  winThreshold : Z;
  lastRoll : option RollResult;
  decisions : gmap string Decision;
  history : list GameEvent;
  winnerId : option string
}.

(** [{ ...player, points: x }] *)
Definition with_points (player : Player) (x : Z) : Player :=
  {| id := id player; secret := secret player; nickname := nickname player;
     points := x; ready := ready player; connected := connected player |}.

(** ** Game rules engine ([game-engine.ts]) *)

Definition SUCCESS_THRESHOLD : Z := 40.
Definition SUCCESS_REWARD : Z := 5.
Definition FAILURE_PENALTY : Z := 10.
Definition WIN_THRESHOLD : Z := 150.
Definition MAX_STEPS : Z := 10.
Definition MIN_STAKE : Z := 5.
Definition MAX_STAKE : Z := 50.
Definition MIN_PLAYERS : Z := 2.
Definition MAX_PLAYERS : Z := 8.
Definition STARTING_POINTS : Z := 100.

(** The one byte that [crypto.getRandomValues] writes into the
    [Uint8Array(1)], read back as a number. *)
Definition byte_value (b : byte) : Z := Z.of_N (Byte.to_N b).

(** [rollChallenge], with the random byte and the clock as arguments. *)
Definition rollChallenge (randomByte : byte) (now : Z) : RollResult :=
  let value := Z.rem (byte_value randomByte) 100 + 1 in
  {| success := SUCCESS_THRESHOLD <=? value;
     value := value;
     timestamp := now |}.

Definition resolveRound (players : list Player)
    (decisions : gmap string Decision) (roll : RollResult) : list Player :=
  map (fun player =>
         let decision := decisions !! id player in
         match decision with
         | Some LEAVE => player
         | Some STAY =>
             let pointChange :=
               if success roll then SUCCESS_REWARD else - FAILURE_PENALTY in
             with_points player (Z.max 0 (points player + pointChange))
         | None => player
         end) players.

(** [Array.prototype.sort] with a comparator: the language guarantees a
    stable sort, which for a consistent comparator determines the result.
    It is embedded as the stable insertion sort: [x], which stood before
    every element of the already sorted tail, goes in front of the first
    [y] that does not have to precede it ([cmp x y <= 0]). *)
Fixpoint sort_insert {A : Type} (cmp : A -> A -> Z) (x : A) (l : list A)
    : list A :=
  match l with
  | [] => [x]
  | y :: l' => if cmp x y <=? 0 then x :: y :: l'
               else y :: sort_insert cmp x l'
  end.

Definition sort {A : Type} (cmp : A -> A -> Z) (l : list A) : list A :=
  foldr (sort_insert cmp) [] l.

Definition checkWinCondition (players : list Player)
    (step maxSteps winThreshold : Z) : option string :=
  let thresholdWinner :=
    List.find (fun p => winThreshold <=? points p) players in
  match thresholdWinner with
  | Some w => Some (id w)
  | None =>
      if maxSteps <=? step then
        let sorted := sort (fun a b => points b - points a) players in
        match sorted !! 0%nat with
        | Some p => Some (id p)
        | None => None
        end
      else
        let activePlayers := List.filter (fun p => 0 <? points p) players in
        if Z.of_nat (length activePlayers) =? 1 then
          match activePlayers !! 0%nat with
          | Some p => Some (id p)
          | None => None
          end
        else None
  end.

Definition distributePot (players : list Player) (winnerId : string)
    (pot : Z) : list Player :=
  map (fun player =>
         if decide (id player = winnerId)
         then with_points player (points player + pot)
         else player) players.

Record StakeResult : Type := mkStakeResult {
  sr_players : list Player;
  sr_pot : Z
}.

Definition collectStakes (players : list Player) (stake : Z) : StakeResult :=
  let pot := stake * Z.of_nat (length players) in
  let updatedPlayers :=
    map (fun player => with_points player (points player - stake)) players in
  {| sr_players := updatedPlayers; sr_pot := pot |}.

(** [%] is the remainder that takes the sign of the dividend: [Z.rem]. *)
Definition getNextCaptain (currentIndex playerCount : Z) : Z :=
  Z.rem (currentIndex + 1) playerCount.



Definition createInitialState (roomToken : string) (stake maxPlayers : Z)
    : RoomState :=
  {| roomToken := roomToken;
     status := LOBBY;
     stake := stake;
     pot := 0;
     maxPlayers := maxPlayers;
     players := [];
     hostId := EmptyString;
     captainIndex := 0;
     phase := WAIT_READY;
     step := 0;
     maxSteps := MAX_STEPS;
     winThreshold := WIN_THRESHOLD;
     lastRoll := None;
     decisions := ∅;
     history := [];
     winnerId := None |}.

Definition allDecisionsMade (players : list Player)
    (decisions : gmap string Decision) (captainId : string) : bool :=
  let nonCaptainPlayers :=
    List.filter
      (fun p => negb (bool_decide (id p = captainId)) && connected p)
      players in
  forallb (fun p => bool_decide (is_Some (decisions !! id p)))
          nonCaptainPlayers.

(** ** String built-ins used by the actor (ASCII) *)

(** White space in the sense of [String.prototype.trim], below 128:
    TAB, LF, VT, FF, CR and SPACE. *)
Definition is_whitespace (c : ascii) : bool :=
  let n := nat_of_ascii c in
  ((9 <=? n)%nat && (n <=? 13)%nat) || (n =? 32)%nat.

Fixpoint trimStart (s : string) : string :=
  match s with
  | EmptyString => EmptyString
  | String c s' => if is_whitespace c then trimStart s' else s
  end.

Definition trim (s : string) : string :=
  String.rev (trimStart (String.rev (trimStart s))).

Definition lower_ascii (c : ascii) : ascii :=
  let n := nat_of_ascii c in
  if ((65 <=? n)%nat && (n <=? 90)%nat)%bool
  then ascii_of_nat (n + 32) else c.

Fixpoint toLowerCase (s : string) : string :=
  match s with
  | EmptyString => EmptyString
  | String c s' => String (lower_ascii c) (toLowerCase s')
  end.

Definition str_length (s : string) : Z := Z.of_nat (String.length s).

(** ** Field updates of the room state *)

Definition set_status (v : Status) (s : RoomState) : RoomState :=
  mkRoomState (roomToken s) v (stake s) (pot s) (maxPlayers s) (players s)
    (hostId s) (captainIndex s) (phase s) (step s) (maxSteps s)
    (winThreshold s) (lastRoll s) (decisions s) (history s) (winnerId s).

Definition set_pot (v : Z) (s : RoomState) : RoomState :=
  mkRoomState (roomToken s) (status s) (stake s) v (maxPlayers s) (players s)
    (hostId s) (captainIndex s) (phase s) (step s) (maxSteps s)
    (winThreshold s) (lastRoll s) (decisions s) (history s) (winnerId s).

Definition set_players (v : list Player) (s : RoomState) : RoomState :=
  mkRoomState (roomToken s) (status s) (stake s) (pot s) (maxPlayers s) v
    (hostId s) (captainIndex s) (phase s) (step s) (maxSteps s)
    (winThreshold s) (lastRoll s) (decisions s) (history s) (winnerId s).

Definition set_hostId (v : string) (s : RoomState) : RoomState :=
  mkRoomState (roomToken s) (status s) (stake s) (pot s) (maxPlayers s)
    (players s) v (captainIndex s) (phase s) (step s) (maxSteps s)
    (winThreshold s) (lastRoll s) (decisions s) (history s) (winnerId s).

Definition set_captainIndex (v : Z) (s : RoomState) : RoomState :=
  mkRoomState (roomToken s) (status s) (stake s) (pot s) (maxPlayers s)
    (players s) (hostId s) v (phase s) (step s) (maxSteps s)
    (winThreshold s) (lastRoll s) (decisions s) (history s) (winnerId s).

Definition set_phase (v : Phase) (s : RoomState) : RoomState :=
  mkRoomState (roomToken s) (status s) (stake s) (pot s) (maxPlayers s)
    (players s) (hostId s) (captainIndex s) v (step s) (maxSteps s)
    (winThreshold s) (lastRoll s) (decisions s) (history s) (winnerId s).

Definition set_step (v : Z) (s : RoomState) : RoomState :=
  mkRoomState (roomToken s) (status s) (stake s) (pot s) (maxPlayers s)
    (players s) (hostId s) (captainIndex s) (phase s) v (maxSteps s)
    (winThreshold s) (lastRoll s) (decisions s) (history s) (winnerId s).

Definition set_lastRoll (v : option RollResult) (s : RoomState) : RoomState :=
  mkRoomState (roomToken s) (status s) (stake s) (pot s) (maxPlayers s)
    (players s) (hostId s) (captainIndex s) (phase s) (step s) (maxSteps s)
    (winThreshold s) v (decisions s) (history s) (winnerId s).

Definition set_decisions (v : gmap string Decision) (s : RoomState)
    : RoomState :=
  mkRoomState (roomToken s) (status s) (stake s) (pot s) (maxPlayers s)
    (players s) (hostId s) (captainIndex s) (phase s) (step s) (maxSteps s)
    (winThreshold s) (lastRoll s) v (history s) (winnerId s).

Definition set_history (v : list GameEvent) (s : RoomState) : RoomState :=
  mkRoomState (roomToken s) (status s) (stake s) (pot s) (maxPlayers s)
    (players s) (hostId s) (captainIndex s) (phase s) (step s) (maxSteps s)
    (winThreshold s) (lastRoll s) (decisions s) v (winnerId s).

Definition set_winnerId (v : option string) (s : RoomState) : RoomState :=
  mkRoomState (roomToken s) (status s) (stake s) (pot s) (maxPlayers s)
    (players s) (hostId s) (captainIndex s) (phase s) (step s) (maxSteps s)
    (winThreshold s) (lastRoll s) (decisions s) (history s) v.

Definition set_ready (v : bool) (p : Player) : Player :=
  mkPlayer (id p) (secret p) (nickname p) (points p) v (connected p).

Definition set_connected (v : bool) (p : Player) : Player :=
  mkPlayer (id p) (secret p) (nickname p) (points p) (ready p) v.

(** ** The room actor ([GameRoom]) *)

(** What a handler answers: a JSON body with an HTTP status, the 101 of a
    WebSocket upgrade, or an exception escaping the handler. *)
Inductive Body : Type :=
  | ErrorBody (error : string)
  | RoomTokenBody (roomToken : string)
  | CredentialsBody (playerId playerSecret : string)
  | ReadyBody (ready : bool)
  | SuccessBody.

Inductive Response : Type :=
  | jsonResponse (data : Body) (status : Z)
  | SwitchingProtocols
  | Thrown.

Inductive ActionType : Type :=
  | CAPTAIN_ROLL
  | Decide (d : Decision)
  | OtherAction (type : string).

(** A header or query parameter: [string | null]; [!x] holds of [null]
    and of the empty string. *)
Definition falsy (x : option string) : bool :=
  match x with
  | None => true
  | Some s => bool_decide (s = EmptyString)
  end.

(** [array[i]] for a numeric index: [undefined] outside the array. *)
Definition at_index {A : Type} (l : list A) (i : Z) : option A :=
  if i <? 0 then None else l !! Z.to_nat i.

(** [array.slice(-n)] *)
Definition slice_last {A : Type} (n : nat) (l : list A) : list A :=
  drop (length l - n) l.

(** [logEvent]: append, and keep the last 50 entries once there are more
    than 100. *)
Definition logEvent (type : string) (data : EventData) (now : Z)
    (s : RoomState) : RoomState :=
  let event := {| ev_type := type; ev_timestamp := now; ev_data := data |} in
  let h := history s ++ [event] in
  if 100 <? Z.of_nat (length h)
  then set_history (slice_last 50 h) s
  else set_history h s.

(** [validatePlayer]: the first player with this id, if its secret
    matches; the index stands for the object reference the source returns
    and later writes through. *)
Definition validatePlayer (s : RoomState) (playerId playerSecret : string)
    : option (nat * Player) :=
  match list_find (fun p => id p = playerId) (players s) with
  | Some (i, player) =>
      if decide (secret player = playerSecret) then Some (i, player) else None
  | None => None
  end.

Definition truthy (x : option string) : option string :=
  if falsy x then None else x.

Definition str_of (x : option string) : string := default EmptyString x.

Definition reject (s : RoomState) (error : string) (status : Z)
    : RoomState * Response :=
  (s, jsonResponse (ErrorBody error) status).

(** [resolveAndAdvance], a no-op when there is no roll to resolve.  The
    winner branch is taken when the winner id is truthy, that is neither
    [null] nor the empty string. *)
Definition resolveAndAdvance (now : Z) (s : RoomState) : RoomState :=
  match lastRoll s with
  | None => s
  | Some roll =>
      let s := set_players (resolveRound (players s) (decisions s) roll) s in
      let s :=
        logEvent "ROUND_RESOLVED" (RoundResolvedData roll (decisions s)) now s in
      let winnerId :=
        checkWinCondition (players s) (step s) (maxSteps s) (winThreshold s) in
      match truthy winnerId with
      | Some w =>
          let s := set_players (distributePot (players s) w (pot s)) s in
          let s := set_status FINISHED s in
          let s := set_winnerId winnerId s in
          let s := set_pot 0 s in
          logEvent "GAME_FINISHED" (GameFinishedData w) now s
      | None =>
          let s := set_step (step s + 1) s in
          let s :=
            set_captainIndex
              (getNextCaptain (captainIndex s) (Z.of_nat (length (players s))))
              s in
          let s := set_phase CAPTAIN_TURN s in
          let s := set_decisions ∅ s in
          set_lastRoll None s
      end
  end.

Definition handleCreate (existingState : option RoomState)
    (stake maxPlayers : Z) (roomToken : string) (now : Z)
    : option RoomState * Response :=
  match existingState with
  | Some _ =>
      (existingState, jsonResponse (ErrorBody "Room already exists") 400)
  | None =>
      if (stake =? 0) || (stake <? MIN_STAKE) || (MAX_STAKE <? stake) then
        (None, jsonResponse (ErrorBody "Invalid stake") 400)
      else if (maxPlayers =? 0) || (maxPlayers <? MIN_PLAYERS)
              || (MAX_PLAYERS <? maxPlayers) then
        (None, jsonResponse (ErrorBody "Invalid maxPlayers") 400)
      else
        let s := createInitialState roomToken stake maxPlayers in
        let s := logEvent "ROOM_CREATED" (RoomCreatedData stake maxPlayers) now s in
        (Some s, jsonResponse (RoomTokenBody roomToken) 200)
  end.

(** [handleJoin]; [nick] is the [nickname] of the request body, [credId]
    and [credSecret] are what [generatePlayerCredentials] drew. *)
Definition handleJoin (s : RoomState) (nick credId credSecret : string)
    (now : Z) : RoomState * Response :=
  if negb (bool_decide (status s = LOBBY)) then
    reject s "Game already started" 400
  else if maxPlayers s <=? Z.of_nat (length (players s)) then
    reject s "Room is full" 400
  else if bool_decide (nick = EmptyString) || (str_length (trim nick) <? 1)
          || (20 <? str_length (trim nick)) then
    reject s "Invalid nickname" 400
  else if existsb
            (fun p => bool_decide (toLowerCase (nickname p)
                                   = toLowerCase (trim nick)))
            (players s) then
    reject s "Nickname already taken" 400
  else
    let player :=
      {| id := credId; secret := credSecret; nickname := trim nick;
         points := STARTING_POINTS; ready := false; connected := false |} in
    let s := set_players (players s ++ [player]) s in
    let s :=
      if Z.of_nat (length (players s)) =? 1 then set_hostId (id player) s
      else s in
    let s :=
      logEvent "PLAYER_JOINED"
        (PlayerJoinedData (id player) (nickname player)) now s in
    (s, jsonResponse (CredentialsBody credId credSecret) 200).

Definition handleReady (s : RoomState) (playerId playerSecret : option string)
    (now : Z) : RoomState * Response :=
  if negb (bool_decide (status s = LOBBY)) then
    reject s "Game already started" 400
  else if falsy playerId || falsy playerSecret then
    reject s "Missing credentials" 401
  else
    match validatePlayer s (str_of playerId) (str_of playerSecret) with
    | None => reject s "Invalid credentials" 401
    | Some (i, player) =>
        let player := set_ready (negb (ready player)) player in
        let s := set_players (<[i := player]> (players s)) s in
        let s :=
          logEvent "PLAYER_READY"
            (PlayerReadyData (str_of playerId) (ready player)) now s in
        (s, jsonResponse (ReadyBody (ready player)) 200)
    end.

Definition handleStart (s : RoomState) (playerId playerSecret : option string)
    (now : Z) : RoomState * Response :=
  if negb (bool_decide (status s = LOBBY)) then
    reject s "Game already started" 400
  else if falsy playerId || falsy playerSecret then
    reject s "Missing credentials" 401
  else if negb (bool_decide (str_of playerId = hostId s)) then
    reject s "Only host can start the game" 403
  else
    match validatePlayer s (str_of playerId) (str_of playerSecret) with
    | None => reject s "Invalid credentials" 401
    | Some _ =>
        if Z.of_nat (length (players s)) <? MIN_PLAYERS then
          reject s "Not enough players" 400
        else if negb (forallb ready (players s)) then
          reject s "Not all players are ready" 400
        else
          let result := collectStakes (players s) (stake s) in
          let s := set_players (sr_players result) s in
          let s := set_pot (sr_pot result) s in
          let s := set_status PLAYING s in
          let s := set_phase CAPTAIN_TURN s in
          let s := set_step 1 s in
          let s := set_captainIndex 0 s in
          let s := set_decisions ∅ s in
          let s := logEvent "GAME_STARTED" (GameStartedData (pot s)) now s in
          (s, jsonResponse SuccessBody 200)
    end.

(** [handleAction].  Reading [captain.id] of an [undefined] captain throws
    before anything was written. *)
Definition handleAction (s : RoomState) (playerId playerSecret : option string)
    (type : ActionType) (randomByte : byte) (now : Z)
    : RoomState * Response :=
  if negb (bool_decide (status s = PLAYING)) then
    reject s "Game not in progress" 400
  else if falsy playerId || falsy playerSecret then
    reject s "Missing credentials" 401
  else
    match validatePlayer s (str_of playerId) (str_of playerSecret) with
    | None => reject s "Invalid credentials" 401
    | Some _ =>
        let captain := at_index (players s) (captainIndex s) in
        match type with
        | CAPTAIN_ROLL =>
            if negb (bool_decide (phase s = CAPTAIN_TURN)) then
              reject s "Not captain turn phase" 400
            else
              match captain with
              | None => (s, Thrown)
              | Some captain =>
                  if negb (bool_decide (str_of playerId = id captain)) then
                    reject s "Only captain can roll" 403
                  else
                    let roll := rollChallenge randomByte now in
                    let s := set_lastRoll (Some roll) s in
                    let s := set_decisions {[ id captain := STAY ]} s in
                    let s := set_phase DECISIONS s in
                    let s :=
                      logEvent "CAPTAIN_ROLLED"
                        (CaptainRolledData (id captain) roll) now s in
                    let active :=
                      List.filter
                        (fun p => connected p || (0 <? points p))
                        (players s) in
                    if Z.of_nat (length active) =? 1 then
                      (resolveAndAdvance now s, jsonResponse SuccessBody 200)
                    else (s, jsonResponse SuccessBody 200)
              end
        | Decide d =>
            if negb (bool_decide (phase s = DECISIONS)) then
              reject s "Not decision phase" 400
            else
              match captain with
              | None => (s, Thrown)
              | Some captain =>
                  if bool_decide (str_of playerId = id captain) then
                    reject s "Captain cannot change decision" 400
                  else if bool_decide
                            (is_Some (decisions s !! str_of playerId)) then
                    reject s "Already made decision" 400
                  else
                    let s :=
                      set_decisions
                        (<[ str_of playerId := d ]> (decisions s)) s in
                    let s :=
                      logEvent "PLAYER_DECISION"
                        (PlayerDecisionData (str_of playerId) d) now s in
                    if allDecisionsMade (players s) (decisions s) (id captain)
                    then
                      (resolveAndAdvance now s, jsonResponse SuccessBody 200)
                    else (s, jsonResponse SuccessBody 200)
              end
        | OtherAction _ => reject s "Invalid action type" 400
        end
    end.

(** The actor: the room state (absent until [create]) and the registry
    of live sockets, each standing for the player it authenticated as. *)
Record GameRoom : Type := mkGameRoom {
  roomState : option RoomState;
  sessions : gmap nat string
}.

Definition newGameRoom : GameRoom :=
  {| roomState := None; sessions := ∅ |}.

(** [handleWebSocket]; [playerId] and [playerSecret] are the header or,
    failing that, the query parameter. *)
Definition handleWebSocket (room : GameRoom) (server : nat)
    (playerId playerSecret : option string) : GameRoom * Response :=
  match roomState room with
  | Some s =>
      if falsy playerId || falsy playerSecret then (room, SwitchingProtocols)
      else
        match validatePlayer s (str_of playerId) (str_of playerSecret) with
        | Some (i, player) =>
            ({| roomState :=
                  Some (set_players
                          (<[i := set_connected true player]> (players s)) s);
                sessions := <[ server := str_of playerId ]> (sessions room) |},
             SwitchingProtocols)
        | None => (room, SwitchingProtocols)
        end
  | None => (room, SwitchingProtocols)
  end.

(** The listener for [close] installed by [handleWebSocket]. *)
Definition onClose (room : GameRoom) (server : nat) : GameRoom :=
  let pid := sessions room !! server in
  let roomState' :=
    match truthy pid, roomState room with
    | Some pid, Some s =>
        match list_find (fun p => id p = pid) (players s) with
        | Some (i, player) =>
            Some (set_players
                    (<[i := set_connected false player]> (players s)) s)
        | None => Some s
        end
    | _, rs => rs
    end in
  {| roomState := roomState'; sessions := delete server (sessions room) |}.

(** The requests that [fetch] routes to a mutating handler. *)
Inductive Request : Type :=
  | Create (stake maxPlayers : Z) (roomToken : string)
  | Join (nick credId credSecret : string)
  | Ready (playerId playerSecret : option string)
  | Start (playerId playerSecret : option string)
  | Action (playerId playerSecret : option string) (type : ActionType)
      (randomByte : byte)
  | WebSocket (server : nat) (playerId playerSecret : option string).

Definition with_room (room : GameRoom)
    (handler : RoomState -> RoomState * Response) : GameRoom * Response :=
  match roomState room with
  | None => (room, jsonResponse (ErrorBody "Room not found") 404)
  | Some s =>
      let '(s', r) := handler s in
      ({| roomState := Some s'; sessions := sessions room |}, r)
  end.

Definition fetch (room : GameRoom) (request : Request) (now : Z)
    : GameRoom * Response :=
  match request with
  | WebSocket server playerId playerSecret =>
      handleWebSocket room server playerId playerSecret
  | Create stake maxPlayers roomToken =>
      let '(rs, r) :=
        handleCreate (roomState room) stake maxPlayers roomToken now in
      ({| roomState := rs; sessions := sessions room |}, r)
  | Join nick credId credSecret =>
      with_room room (fun s => handleJoin s nick credId credSecret now)
  | Ready playerId playerSecret =>
      with_room room (fun s => handleReady s playerId playerSecret now)
  | Start playerId playerSecret =>
      with_room room (fun s => handleStart s playerId playerSecret now)
  | Action playerId playerSecret type randomByte =>
      with_room room
        (fun s => handleAction s playerId playerSecret type randomByte now)
  end.

(** One step of the actor: a request served at some clock reading, or a
    socket closing.  Requests are served one at a time. *)
Inductive room_step : GameRoom -> GameRoom -> Prop :=
  | step_fetch room request now :
      room_step room (fetch room request now).1
  | step_close room server :
      room_step room (onClose room server).

Definition reachable (room : GameRoom) : Prop := rtc room_step newGameRoom room.

(** ** Predicates used in the statements *)

(** Two players agree on everything but their points. *)
Definition same_identity (p q : Player) : Prop :=
  id q = id p /\ secret q = secret p /\ nickname q = nickname p
  /\ ready q = ready p /\ connected q = connected p.

(** The rule [resolveRound] follows for one player [p], with result [q]. *)
Definition resolved (decisions : gmap string Decision) (roll : RollResult)
    (p q : Player) : Prop :=
  (decisions !! id p = Some LEAVE -> q = p)
  /\ (decisions !! id p = Some STAY -> success roll = true ->
        q = with_points p (Z.max 0 (points p + 5)))
  /\ (decisions !! id p = Some STAY -> success roll = false ->
        q = with_points p (Z.max 0 (points p - 10)))
  /\ (decisions !! id p = None -> q = p).

(** The comparator [(a, b) => b.points - a.points] of [checkWinCondition]. *)
Definition by_points_desc (a b : Player) : Z := points b - points a.

(** The handlers answer 401 to missing or invalid credentials and 403 to
    a caller in the wrong role (a non-host starting, a non-captain
    rolling); they answer 404 to an unknown room and 400 to everything
    else they refuse.  A rejection for authentication or authorisation
    is one with status 401 or 403. *)
Definition is_auth_rejection (r : Response) : bool :=
  match r with
  | jsonResponse (ErrorBody _) status => (status =? 401) || (status =? 403)
  | _ => false
  end.

(** What every room state the actor can be in satisfies: a winner is
    recorded exactly in FINISHED, the stake is within its bounds, players
    in the lobby hold the starting points, and once the game has started
    nobody's points and not the pot are negative. *)
Definition room_inv (s : RoomState) : Prop :=
  (is_Some (winnerId s) <-> status s = FINISHED)
  /\ MIN_STAKE <= stake s <= MAX_STAKE
  /\ match status s with
     | LOBBY => Forall (fun p => points p = STARTING_POINTS) (players s)
     | PLAYING | FINISHED =>
         Forall (fun p => 0 <= points p) (players s) /\ 0 <= pot s
     end.

(** The invariant, for an actor whose room may not exist yet. *)
Definition room_ok (room : GameRoom) : Prop :=
  forall s, roomState room = Some s -> room_inv s.

(** ** Scenarios *)

(** A player known by name and points. *)
Definition scored (name : string) (pts : Z) : Player :=
  mkPlayer name "s" name pts true true.

(** The players of the engine's unit tests, the third one nearly broke. *)
Definition three_players : list Player :=
  [ mkPlayer "p1" "s1" "Player1" 100 true true;
    mkPlayer "p2" "s2" "Player2" 100 true true;
    mkPlayer "p3" "s3" "Player3" 4 true true ].

(** Serving requests one after the other, each at its clock reading. *)
Definition serve (room : GameRoom) (requests : list (Request * Z)) : GameRoom :=
  foldl (fun room '(request, now) => (fetch room request now).1) room requests.

(** What of a room state the scenarios observe. *)
Definition observe (s : RoomState)
    : Status * Phase * Z * Z * Z * list (string * Z) :=
  (status s, phase s, step s, captainIndex s, pot s,
   map (fun p => (nickname p, points p)) (players s)).

(** The state of a room that has one. *)
Definition state_of (room : GameRoom) : RoomState :=
  default (createInitialState EmptyString 0 0) (roomState room).

(** Credentials as [generatePlayerCredentials] shapes them: 16 and 32
    hexadecimal digits. *)
Definition alice_id : string := "a11ce00000000001".
Definition alice_secret : string := "5ec2e7000000000000000000000a11ce".
Definition bob_id : string := "b0b0000000000002".
Definition bob_secret : string := "5ec2e70000000000000000000000b0b0".

Definition alice : option string * option string :=
  (Some alice_id, Some alice_secret).
Definition bob : option string * option string :=
  (Some bob_id, Some bob_secret).

(** Scenario 1 up to the start: a room for stake 10 and four players,
    Alice and Bob joined and ready. *)
Definition scenario1_lobby : GameRoom :=
  serve newGameRoom
    [ (Create 10 4 "1A2B3C4D", 1);
      (Join "Alice" alice_id alice_secret, 2);
      (Join "Bob" bob_id bob_secret, 3);
      (Ready (Some alice_id) (Some alice_secret), 4);
      (Ready (Some bob_id) (Some bob_secret), 5) ].

Definition scenario1_lobby_state : RoomState := state_of scenario1_lobby.

Definition scenario1_start : GameRoom * Response :=
  fetch scenario1_lobby (Start (Some alice_id) (Some alice_secret)) 6.

(** Scenario 1 continued: Alice, the first captain, rolls a 100; both
    players still have points, so the room waits for Bob in DECISIONS. *)
Definition scenario1_decisions : GameRoom :=
  (fetch scenario1_start.1
     (Action (Some alice_id) (Some alice_secret) CAPTAIN_ROLL "c"%byte) 7).1.

(** One round between two players: the captain rolls, the other decides. *)
Definition round (captain other : option string * option string)
    (d : Decision) (randomByte : byte) (now : Z) : list (Request * Z) :=
  [ (Action captain.1 captain.2 CAPTAIN_ROLL randomByte, now);
    (Action other.1 other.2 (Decide d) randomByte, now + 1) ].

(** Scenario 1 in full, the start included. *)
Definition scenario1_requests : list (Request * Z) :=
  [ (Create 10 4 "1A2B3C4D", 1);
    (Join "Alice" alice_id alice_secret, 2);
    (Join "Bob" bob_id bob_secret, 3);
    (Ready alice.1 alice.2, 4);
    (Ready bob.1 bob.2, 5);
    (Start alice.1 alice.2, 6) ].

(** Scenario 2: after the start, Alice rolls a success and Bob stays. *)
Definition scenario2_room : GameRoom :=
  serve newGameRoom (scenario1_requests ++ round alice bob STAY "c" 7).

(** Ten rounds, the captain's seat alternating; Alice's rolls succeed and
    Bob's fail, and the player who is not captain stays in the first two
    rounds and leaves afterwards. *)
Definition ten_rounds : list (Request * Z) :=
  round alice bob STAY "c" 10 ++ round bob alice STAY "000" 20
  ++ round alice bob LEAVE "c" 30 ++ round bob alice LEAVE "000" 40
  ++ round alice bob LEAVE "c" 50 ++ round bob alice LEAVE "000" 60
  ++ round alice bob LEAVE "c" 70 ++ round bob alice LEAVE "000" 80
  ++ round alice bob LEAVE "c" 90 ++ round bob alice LEAVE "000" 100.

Definition finished_room : GameRoom :=
  serve newGameRoom (scenario1_requests ++ ten_rounds).

(** ** Tokens and credentials ([game-engine.ts]) *)

(** One digit of [Number.prototype.toString(16)]. *)
Definition hex_digit (n : N) : ascii :=
  if (n <? 10)%N then ascii_of_N (48 + n) else ascii_of_N (87 + n).

(** [b.toString(16)] for a byte: one digit below 16, two from 16 on. *)
Definition toString16 (b : byte) : string :=
  let n := Byte.to_N b in
  if (n <? 16)%N then String (hex_digit n) EmptyString
  else String (hex_digit (n / 16)) (String (hex_digit (n mod 16)) EmptyString).

Fixpoint repeat_char (n : nat) (c : ascii) : string :=
  match n with
  | O => EmptyString
  | S n' => String c (repeat_char n' c)
  end.

(** [s.padStart(targetLength, c)] for a one-character filler. *)
Definition padStart (targetLength : nat) (c : ascii) (s : string) : string :=
  String.app (repeat_char (targetLength - String.length s) c) s.

Definition upper_ascii (c : ascii) : ascii :=
  let n := nat_of_ascii c in
  if ((97 <=? n)%nat && (n <=? 122)%nat)%bool
  then ascii_of_nat (n - 32) else c.

Fixpoint toUpperCase (s : string) : string :=
  match s with
  | EmptyString => EmptyString
  | String c s' => String (upper_ascii c) (toUpperCase s')
  end.

(** [Array.from(array, b => b.toString(16).padStart(2, '0')).join('')] *)
Definition hex_of_bytes (array : list byte) : string :=
  foldr String.app EmptyString
    (map (fun b => padStart 2 "0" (toString16 b)) array).

(** [generateRoomToken], from the four bytes drawn. *)
Definition generateRoomToken (array : vec byte 4) : string :=
  toUpperCase (hex_of_bytes (vec_to_list array)).

Record Credentials : Type := mkCredentials {
  cred_id : string;
  cred_secret : string
}.

(** [generatePlayerCredentials], from the eight and sixteen bytes drawn. *)
Definition generatePlayerCredentials (idArray : vec byte 8)
    (secretArray : vec byte 16) : Credentials :=
  {| cred_id := hex_of_bytes (vec_to_list idArray);
     cred_secret := hex_of_bytes (vec_to_list secretArray) |}.

(** ** The public projection ([GameRoom.getPublicState]) *)

Record PublicPlayer : Type := mkPublicPlayer {
  pub_id : string;
  pub_nickname : string;
  pub_points : Z;
  pub_ready : bool;
  pub_connected : bool
}.

Record PublicRoomState : Type := mkPublicRoomState {
  pub_roomToken : string;
  pub_status : Status;
  pub_stake : Z;
  pub_pot : Z;
  pub_maxPlayers : Z;
  pub_players : list PublicPlayer;
  pub_hostId : string;
  pub_captainIndex : Z;
  pub_phase : Phase;
  pub_step : Z;
  pub_maxSteps : Z;
  pub_winThreshold : Z;
  pub_lastRoll : option RollResult;
  pub_decisions : gmap string Decision;
  pub_winnerId : option string
}.

Definition getPublicState (roomState : option RoomState)
    : option PublicRoomState :=
  match roomState with
  | None => None
  | Some s =>
      Some {| pub_roomToken := roomToken s;
              pub_status := status s;
              pub_stake := stake s;
              pub_pot := pot s;
              pub_maxPlayers := maxPlayers s;
              pub_players :=
                map (fun p => {| pub_id := id p;
                                 pub_nickname := nickname p;
                                 pub_points := points p;
                                 pub_ready := ready p;
                                 pub_connected := connected p |})
                    (players s);
              pub_hostId := hostId s;
              pub_captainIndex := captainIndex s;
              pub_phase := phase s;
              pub_step := step s;
              pub_maxSteps := maxSteps s;
              pub_winThreshold := winThreshold s;
              pub_lastRoll := lastRoll s;
              pub_decisions := decisions s;
              pub_winnerId := winnerId s |}
  end.

(** What [handleGetState] puts in its JSON response, with the status. *)
Inductive StateBody : Type :=
  | StateError (error : string)
  | StateSnapshot (snapshot : PublicRoomState).

Definition handleGetState (room : GameRoom) : StateBody * Z :=
  match getPublicState (roomState room) with
  | None => (StateError "Room not found", 404)
  | Some snapshot => (StateSnapshot snapshot, 200)
  end.

(** [{ ...player, secret: x }], to speak of states that differ in secrets. *)
Definition set_secret (v : string) (p : Player) : Player :=
  mkPlayer (id p) v (nickname p) (points p) (ready p) (connected p).

(** The generated part of a request: a join carries credentials that
    [generatePlayerCredentials] can have drawn. *)
Definition generated (request : Request) : Prop :=
  match request with
  | Join _ credId credSecret =>
      exists idArray secretArray,
        generatePlayerCredentials idArray secretArray
        = mkCredentials credId credSecret
  | _ => True
  end.

(** The actor's steps with credentials as the engine generates them. *)
Inductive played_step : GameRoom -> GameRoom -> Prop :=
  | played_fetch room request now :
      generated request -> played_step room (fetch room request now).1
  | played_close room server :
      played_step room (onClose room server).

Definition playable (room : GameRoom) : Prop :=
  rtc played_step newGameRoom room.

(** ** Reading hexadecimal back (used to state the round trips) *)

Definition is_lower_hex (c : ascii) : bool :=
  let n := nat_of_ascii c in
  ((48 <=? n)%nat && (n <=? 57)%nat) || ((97 <=? n)%nat && (n <=? 102)%nat).

Definition is_upper_hex (c : ascii) : bool :=
  let n := nat_of_ascii c in
  ((48 <=? n)%nat && (n <=? 57)%nat) || ((65 <=? n)%nat && (n <=? 70)%nat).

Definition hex_value (c : ascii) : option N :=
  let n := N_of_ascii c in
  if ((48 <=? n) && (n <=? 57))%N then Some (n - 48)%N
  else if ((97 <=? n) && (n <=? 102))%N then Some (n - 87)%N
  else if ((65 <=? n) && (n <=? 70))%N then Some (n - 55)%N
  else None.

Definition decode_byte (c1 c2 : ascii) : option byte :=
  match hex_value c1, hex_value c2 with
  | Some h, Some l => Byte.of_N (16 * h + l)
  | _, _ => None
  end.

Fixpoint bytes_of_hex (s : string) : option (list byte) :=
  match s with
  | EmptyString => Some []
  | String c1 (String c2 rest) =>
      match decode_byte c1 c2, bytes_of_hex rest with
      | Some b, Some l => Some (b :: l)
      | _, _ => None
      end
  | String _ EmptyString => None
  end.

Definition chars (s : string) : list ascii := list_ascii_of_string s.

(** ** Measures used in the statements *)

(** The points of all players together. *)
Definition total_points (players : list Player) : Z :=
  foldr (fun p acc => points p + acc) 0 players.

(** How many players carry a given id. *)
Definition count_id (players : list Player) (i : string) : Z :=
  Z.of_nat (length (List.filter (fun p => bool_decide (id p = i)) players)).

#[global] Instance byte_eq_decision : EqDecision byte := Byte.byte_eq_dec.

(** The 256 values of a byte. *)
Definition all_bytes : list byte :=
  map (fun n => default "000"%byte (Byte.of_N (N.of_nat n))) (seq 0 256).

(** How many of the 256 bytes make [rollChallenge] show a given value. *)
Definition bytes_rolling (v : Z) : nat :=
  length (List.filter (fun b => value (rollChallenge b 0) =? v) all_bytes).

(** ** Intermediate states of an action *)

(** The state a captain's roll leaves before any resolution, with [h] the
    history after logging the roll. *)
Definition after_roll (captainId : string) (roll : RollResult)
    (h : list GameEvent) (s : RoomState) : RoomState :=
  set_history h
    (set_phase DECISIONS
       (set_decisions {[ captainId := STAY ]}
          (set_lastRoll (Some roll) s))).

(** The state a recorded decision leaves before any resolution. *)
Definition after_decision (playerId : string) (d : Decision)
    (h : list GameEvent) (s : RoomState) : RoomState :=
  set_history h (set_decisions (<[ playerId := d ]> (decisions s)) s).

(** ** Further predicates used in the statements *)

(** A response that is an error, or the exception of a handler. *)
Definition refused (r : Response) : Prop :=
  (exists e status, r = jsonResponse (ErrorBody e) status) \/ r = Thrown.

(** What identifies a player for good. *)
Definition identity_of (p : Player) : string * string * string :=
  (id p, secret p, nickname p).

Definition status_rank (st : Status) : Z :=
  match st with LOBBY => 0 | PLAYING => 1 | FINISHED => 2 end.

(** How a room state relates to any later state of the same room. *)
Definition evolves (s s' : RoomState) : Prop :=
  roomToken s' = roomToken s
  /\ stake s' = stake s
  /\ maxPlayers s' = maxPlayers s
  /\ maxSteps s' = maxSteps s
  /\ winThreshold s' = winThreshold s
  /\ status_rank (status s) <= status_rank (status s')
  /\ map identity_of (players s) `prefix_of` map identity_of (players s')
  /\ (status s <> LOBBY -> length (players s') = length (players s))
  /\ (players s <> [] -> hostId s' = hostId s).

(** What a finished game has settled. *)
Definition outcome (s : RoomState)
    : Status * option string * Z * list (string * Z) * list GameEvent :=
  (status s, winnerId s, pot s,
   map (fun p => (id p, points p)) (players s), history s).

(** ** The shape of a reachable room state *)

(** While the game is on. *)
Definition playing_shape (s : RoomState) : Prop :=
  MIN_PLAYERS <= Z.of_nat (length (players s))
  /\ pot s = stake s * Z.of_nat (length (players s))
  /\ 0 <= captainIndex s < Z.of_nat (length (players s))
  /\ 1 <= step s
  /\ Forall (fun x => x <= STARTING_POINTS - stake s
                            + SUCCESS_REWARD * (step s - 1))
       (map points (players s))
  /\ (Forall (fun i => i <> EmptyString) (map id (players s)) ->
      step s <= maxSteps s)
  /\ ((phase s = CAPTAIN_TURN /\ decisions s = ∅)
      \/ (phase s = DECISIONS
          /\ exists captainId,
               map id (players s) !! Z.to_nat (captainIndex s)
               = Some captainId
               /\ decisions s !! captainId = Some STAY)).

(** Once the game is over. *)
Definition finished_shape (s : RoomState) : Prop :=
  MIN_PLAYERS <= Z.of_nat (length (players s))
  /\ pot s = 0
  /\ phase s = DECISIONS
  /\ 1 <= step s
  /\ exists w, winnerId s = Some w /\ w <> EmptyString
               /\ w ∈ map id (players s).

Definition room_shape (s : RoomState) : Prop :=
  (maxSteps s = MAX_STEPS /\ winThreshold s = WIN_THRESHOLD)
  /\ MIN_STAKE <= stake s <= MAX_STAKE
  /\ MIN_PLAYERS <= maxPlayers s <= MAX_PLAYERS
  /\ Z.of_nat (length (players s)) <= maxPlayers s
  /\ hostId s = default EmptyString (head (map id (players s)))
  /\ NoDup (map toLowerCase (map nickname (players s)))
  /\ Forall (fun n => 1 <= str_length n <= 20) (map nickname (players s))
  /\ (forall k, is_Some (decisions s !! k) -> k ∈ map id (players s))
  /\ (forall r, lastRoll s = Some r ->
        1 <= value r <= 100 /\ success r = (SUCCESS_THRESHOLD <=? value r))
  /\ (is_Some (lastRoll s) <-> phase s = DECISIONS)
  /\ match status s with
     | LOBBY =>
         phase s = WAIT_READY /\ step s = 0 /\ pot s = 0
         /\ captainIndex s = 0 /\ decisions s = ∅
     | PLAYING => playing_shape s
     | FINISHED => finished_shape s
     end.

Definition shape_ok (room : GameRoom) : Prop :=
  forall s, roomState room = Some s -> room_shape s.

(** The event log within its bound. *)
Definition history_ok (room : GameRoom) : Prop :=
  forall s, roomState room = Some s -> (length (history s) <= 100)%nat.

(** Player ids as the engine generates them. *)
Definition ids_ok (room : GameRoom) : Prop :=
  forall s, roomState room = Some s ->
            Forall (fun i => String.length i = 16%nat) (map id (players s)).

(** Every registered socket stands for a player of the room. *)
Definition sessions_ok (room : GameRoom) : Prop :=
  forall server pid,
    sessions room !! server = Some pid ->
    pid <> EmptyString
    /\ exists s, roomState room = Some s /\ pid ∈ map id (players s).

(** * Properties of the rules engine *)

Section RollChallenge.

Lemma byte_value_range (b : byte) : 0 <= byte_value b < 256.
Proof.
  unfold byte_value. pose proof (Byte.to_N_bounded b) as Hb.
  split; [apply N2Z.is_nonneg | lia].
Qed.

Lemma rollChallenge_value (b : byte) (now : Z) :
  value (rollChallenge b now) = byte_value b mod 100 + 1.
Proof.
  cbn [rollChallenge value]. f_equal.
  apply Z.rem_mod_nonneg; [apply byte_value_range | lia].
Qed.

End RollChallenge.

(** C4. Whatever byte is drawn (and whatever the clock reads), the roll
    has [value = (byte mod 100) + 1], which lies between 1 and 100, and
    [success] is exactly the test [value >= 40]. *)
Theorem rollChallenge_spec (randomByte : byte) (now : Z) :
  let r := rollChallenge randomByte now in
  value r = byte_value randomByte mod 100 + 1
  /\ 1 <= value r <= 100
  /\ success r = bool_decide (value r >= 40).
Proof.
  intros r. subst r. split; [apply rollChallenge_value | split].
  - rewrite rollChallenge_value.
    pose proof (Z.mod_pos_bound (byte_value randomByte) 100). lia.
  - cbn [rollChallenge value success]. unfold SUCCESS_THRESHOLD.
    destruct (Z.leb_spec 40 (Z.rem (byte_value randomByte) 100 + 1));
      symmetry; [apply bool_decide_eq_true | apply bool_decide_eq_false]; lia.
Qed.

(** Every value from 1 to 100 is drawn by some byte, both outcomes occur. *)
Example rollChallenge_low : rollChallenge "000"%byte 7 = mkRollResult false 1 7.
Proof. reflexivity. Qed.

Example rollChallenge_high : rollChallenge "c"%byte 7 = mkRollResult true 100 7.
Proof. reflexivity. Qed.

Example rollChallenge_wraps : rollChallenge "255"%byte 7 = mkRollResult true 56 7.
Proof. reflexivity. Qed.

Lemma same_identity_with_points (p : Player) (x : Z) :
  same_identity p (with_points p x).
Proof. by repeat split. Qed.

Lemma same_identity_refl (p : Player) : same_identity p p.
Proof. by repeat split. Qed.

Lemma collectStakes_players (players : list Player) (stake : Z) :
  Forall2 (fun p q => points q = points p - stake /\ same_identity p q)
    players (sr_players (collectStakes players stake)).
Proof.
  cbn [collectStakes sr_players].
  induction players as [| p ps IH]; constructor; [| exact IH].
  split; [reflexivity | apply same_identity_with_points].
Qed.

(** C6. [collectStakes] returns [stake * players.length] as the pot and,
    position by position, the same player with [stake] taken off the
    points, whatever the sign of the result. *)
Theorem collectStakes_spec (players : list Player) (stake : Z) :
  sr_pot (collectStakes players stake) = stake * Z.of_nat (length players)
  /\ Forall2 (fun p q => points q = points p - stake /\ same_identity p q)
       players (sr_players (collectStakes players stake)).
Proof.
  split; [reflexivity | apply collectStakes_players].
Qed.

(** No clamping: a stake above the balance leaves a negative balance. *)
Example collectStakes_negative :
  map points (sr_players (collectStakes [mkPlayer "a" "s" "A" 3 true true] 10))
  = [-7].
Proof. reflexivity. Qed.

Section CaptainRotation.

Variable n : Z.
Hypothesis n_pos : 0 < n.

Lemma getNextCaptain_mod (i : Z) :
  0 <= i -> getNextCaptain i n = (i + 1) mod n.
Proof. intros Hi. unfold getNextCaptain. apply Z.rem_mod_nonneg; lia. Qed.

Lemma getNextCaptain_cases (i : Z) :
  0 <= i < n ->
  getNextCaptain i n = if decide (i + 1 = n) then 0 else i + 1.
Proof.
  intros Hi. rewrite getNextCaptain_mod by lia.
  destruct (decide (i + 1 = n)) as [-> | Hne].
  - apply Z.mod_same. lia.
  - apply Z.mod_small. lia.
Qed.

(** [m] rotations move the captain [m] seats further, modulo [n]. *)
Lemma getNextCaptain_iter (m : nat) (i : Z) :
  0 <= i < n ->
  Nat.iter m (fun k => getNextCaptain k n) i = (i + Z.of_nat m) mod n.
Proof.
  intros Hi. induction m as [| m IH].
  - cbn. rewrite Z.add_0_r. symmetry. apply Z.mod_small. lia.
  - cbn [Nat.iter nat_rect]. change (nat_rect _ _ _ m) with
      (Nat.iter m (fun k => getNextCaptain k n) i).
    rewrite IH.
    pose proof (Z.mod_pos_bound (i + Z.of_nat m) n n_pos) as Hb.
    rewrite getNextCaptain_mod by lia.
    rewrite Z.add_mod_idemp_l by lia. f_equal. lia.
Qed.

End CaptainRotation.

(** C9. For [n > 0], [getNextCaptain (., n)] maps [[0, n)] into itself,
    one-to-one and onto, and has period [n]: [n] applications bring every
    index back, and no smaller positive number of applications does. *)
Theorem getNextCaptain_bijection_period (n : Z) (Hn : 0 < n) :
  (forall i, 0 <= i < n -> 0 <= getNextCaptain i n < n)
  /\ (forall i j, 0 <= i < n -> 0 <= j < n ->
        getNextCaptain i n = getNextCaptain j n -> i = j)
  /\ (forall k, 0 <= k < n -> exists i, 0 <= i < n /\ getNextCaptain i n = k)
  /\ (forall i, 0 <= i < n ->
        Nat.iter (Z.to_nat n) (fun k => getNextCaptain k n) i = i)
  /\ (forall i m, 0 <= i < n -> 0 < m < n ->
        Nat.iter (Z.to_nat m) (fun k => getNextCaptain k n) i <> i).
Proof.
  repeat split.
  - rewrite getNextCaptain_cases by lia. case_decide; lia.
  - rewrite getNextCaptain_cases by lia. case_decide; lia.
  - intros i j Hi Hj. rewrite !getNextCaptain_cases by lia.
    repeat case_decide; lia.
  - intros k Hk. destruct (decide (k = 0)) as [-> | Hk0].
    + exists (n - 1). split; [lia |].
      rewrite getNextCaptain_cases by lia. case_decide; lia.
    + exists (k - 1). split; [lia |].
      rewrite getNextCaptain_cases by lia. case_decide; lia.
  - intros i Hi. rewrite getNextCaptain_iter by lia.
    rewrite Z2Nat.id by lia.
    replace (i + n) with (i + 1 * n) by lia.
    rewrite Z.mod_add by lia. apply Z.mod_small. lia.
  - intros i m Hi Hm. rewrite getNextCaptain_iter by lia.
    rewrite Z2Nat.id by lia. intros Heq.
    destruct (Z_lt_le_dec (i + m) n) as [Hlt | Hge].
    + rewrite Z.mod_small in Heq by lia. lia.
    + replace (i + m) with ((i + m - n) + 1 * n) in Heq by lia.
      rewrite Z.mod_add, Z.mod_small in Heq by lia. lia.
Qed.

(** The rotation among four seats. *)
Lemma getNextCaptain_bijection_period_witness :
  0 < 4
  /\ getNextCaptain 3 4 = 0
  /\ Nat.iter 4 (fun k => getNextCaptain k 4) 2 = 2
  /\ Nat.iter 3 (fun k => getNextCaptain k 4) 2 <> 2.
Proof.
  assert (H4 : 0 < 4) by lia.
  destruct (getNextCaptain_bijection_period 4 H4)
    as (_ & _ & _ & Hperiod & Hmin).
  split; [exact H4 |]. split; [reflexivity |]. split.
  - apply (Hperiod 2). lia.
  - apply (Hmin 2 3); lia.
Defined.

Section ResolveRound.

Variable decisions : gmap string Decision.
Variable roll : RollResult.

Lemma resolveRound_cons (p : Player) (ps : list Player) :
  resolveRound (p :: ps) decisions roll
  = hd p (resolveRound [p] decisions roll) :: resolveRound ps decisions roll.
Proof. reflexivity. Qed.

Lemma resolveRound_pointwise (players : list Player) :
  Forall2 (resolved decisions roll) players
    (resolveRound players decisions roll).
Proof.
  induction players as [| p ps IH]; [constructor |].
  rewrite resolveRound_cons. constructor; [| exact IH].
  cbn [resolveRound map hd]. unfold resolved.
  destruct (decisions !! id p) as [[] |]; destruct (success roll);
    repeat split; intros; congruence.
Qed.

Lemma resolveRound_identity (players : list Player) :
  Forall2 same_identity players (resolveRound players decisions roll).
Proof.
  induction players as [| p ps IH]; [constructor |].
  rewrite resolveRound_cons. constructor; [| exact IH].
  cbn [resolveRound map hd].
  destruct (decisions !! id p) as [[] |];
    auto using same_identity_refl, same_identity_with_points.
Qed.

Lemma resolveRound_clamped (players : list Player) :
  Forall2 (fun p q => decisions !! id p = Some STAY \/ 0 <= points p ->
                      0 <= points q)
    players (resolveRound players decisions roll).
Proof.
  induction players as [| p ps IH]; [constructor |].
  rewrite resolveRound_cons. constructor; [| exact IH].
  cbn [resolveRound map hd].
  destruct (decisions !! id p) as [[] |]; cbn [with_points points];
    intros [? | ?]; try congruence; lia.
Qed.

Lemma resolveRound_nonneg (players : list Player) :
  Forall (fun p => 0 <= points p) players ->
  Forall (fun q => 0 <= points q) (resolveRound players decisions roll).
Proof.
  intros Hin. pose proof (resolveRound_clamped players) as H2.
  induction H2 as [| p q ps qs Hpq _ IH]; [constructor |].
  inversion Hin; subst. constructor; auto.
Qed.

End ResolveRound.

(** C2, as the code has it. Position by position, [resolveRound] leaves a
    player who chose LEAVE or has no recorded decision as it is, and gives
    a player who chose STAY [max(0, points + 5)] on success and
    [max(0, points - 10)] on failure.  Hence the points of a STAY player
    are never negative in the result, and no points are when none were
    negative in the input. *)
Theorem resolveRound_spec (players : list Player)
    (decisions : gmap string Decision) (roll : RollResult) :
  Forall2 (resolved decisions roll)
    players (resolveRound players decisions roll)
  /\ Forall2 (fun p q => decisions !! id p = Some STAY -> 0 <= points q)
       players (resolveRound players decisions roll)
  /\ (Forall (fun p => 0 <= points p) players ->
      Forall (fun q => 0 <= points q) (resolveRound players decisions roll)).
Proof.
  split; [apply resolveRound_pointwise | split].
  - eapply Forall2_impl; [apply resolveRound_clamped |].
    cbn. intros p q H Hstay. apply H. by left.
  - apply resolveRound_nonneg.
Qed.

(** One STAY, one LEAVE, one silent player, on a failed roll. *)
Lemma resolveRound_spec_witness :
  Forall (fun p => 0 <= points p) three_players
  /\ map points
       (resolveRound three_players {[ "p3" := STAY; "p2" := LEAVE ]}
          (mkRollResult false 20 0)) = [100; 100; 0]
  /\ Forall (fun q => 0 <= points q)
       (resolveRound three_players {[ "p3" := STAY; "p2" := LEAVE ]}
          (mkRollResult false 20 0)).
Proof.
  assert (Hin : Forall (fun p => 0 <= points p) three_players).
  { unfold three_players. repeat constructor; cbn; lia. }
  split; [exact Hin |]. split; [vm_compute; reflexivity |].
  exact (proj2 (proj2 (resolveRound_spec three_players
                         {[ "p3" := STAY; "p2" := LEAVE ]}
                         (mkRollResult false 20 0))) Hin).
Defined.

(** C2, as stated, fails: a player who enters with negative points and
    chose LEAVE leaves with the same negative points. *)
Lemma resolveRound_negative_counterexample :
  resolveRound [mkPlayer "p1" "s1" "Player1" (-5) true true]
    {[ "p1" := LEAVE ]} (mkRollResult true 75 0)
  = [mkPlayer "p1" "s1" "Player1" (-5) true true]
  /\ ~ Forall (fun q => 0 <= points q)
         (resolveRound [mkPlayer "p1" "s1" "Player1" (-5) true true]
            {[ "p1" := LEAVE ]} (mkRollResult true 75 0)).
Proof.
  split; [vm_compute; reflexivity |].
  intros H. apply Forall_cons_1 in H as [H _]. vm_compute in H. by apply H.
Qed.

(** C10. [resolveRound] answers with a list of the same length whose
    player at each position is the input player at that position with
    [id], [secret], [nickname], [ready] and [connected] untouched. *)
Theorem resolveRound_frame (players : list Player)
    (decisions : gmap string Decision) (roll : RollResult) :
  length (resolveRound players decisions roll) = length players
  /\ Forall2 same_identity players (resolveRound players decisions roll).
Proof.
  split; [apply length_map | apply resolveRound_identity].
Qed.

Section Sort.

Context {A : Type}.
Variable cmp : A -> A -> Z.

Lemma sort_insert_perm (x : A) (l : list A) :
  Permutation (sort_insert cmp x l) (x :: l).
Proof.
  induction l as [| y l IH]; cbn; [reflexivity |].
  destruct (cmp x y <=? 0); [reflexivity |].
  rewrite IH. apply perm_swap.
Qed.

(** The model of [sort] rearranges, it neither drops nor invents. *)
Lemma sort_perm (l : list A) : Permutation (sort cmp l) l.
Proof.
  induction l as [| x l IH]; cbn; [reflexivity |].
  rewrite sort_insert_perm. by constructor.
Qed.

Lemma sort_cons (x : A) (l : list A) :
  sort cmp (x :: l) = sort_insert cmp x (sort cmp l).
Proof. reflexivity. Qed.

(** An element that no other has to precede stays in front. *)
Lemma sort_insert_head_le (x : A) (l : list A) :
  Forall (fun y => cmp x y <= 0) l ->
  sort_insert cmp x l !! 0%nat = Some x.
Proof.
  destruct l as [| y l]; [reflexivity |].
  intros H. apply Forall_cons_1 in H as [Hy _]. cbn.
  destruct (Z.leb_spec (cmp x y) 0); [reflexivity | lia].
Qed.

(** An element that the head has to precede does not displace it. *)
Lemma sort_insert_head_gt (x y : A) (l : list A) :
  l !! 0%nat = Some y -> 0 < cmp x y ->
  sort_insert cmp x l !! 0%nat = Some y.
Proof.
  destruct l as [| z l]; [discriminate |]. cbn. intros [= ->] Hgt.
  destruct (Z.leb_spec (cmp x y) 0); [lia | reflexivity].
Qed.

End Sort.

(** The result of sorting by descending points is in descending order. *)
Lemma sort_by_points_sorted (l : list Player) :
  Sorted (fun a b => points b <= points a) (sort by_points_desc l).
Proof.
  induction l as [| x l IH]; [constructor |].
  rewrite sort_cons. revert IH. generalize (sort by_points_desc l) as s.
  induction s as [| y s IHs]; intros Hs; cbn.
  - repeat constructor.
  - unfold by_points_desc at 1.
    destruct (Z.leb_spec (points y - points x) 0).
    + constructor; [exact Hs | constructor; lia].
    + apply Sorted_inv in Hs as [Hs Hhd]. constructor; [by apply IHs |].
      destruct s as [| z s]; cbn.
      * constructor. lia.
      * unfold by_points_desc at 1.
        destruct (Z.leb_spec (points z - points x) 0); constructor;
          [lia | by inversion Hhd].
Qed.

(** After a stable sort by descending points, the first element is the
    first player of the original list among those with the most points. *)
Lemma sort_head_first_max (pre post : list Player) (p : Player) :
  Forall (fun q => points q < points p) pre ->
  Forall (fun q => points q <= points p) post ->
  sort by_points_desc (pre ++ p :: post) !! 0%nat = Some p.
Proof.
  intros Hpre Hpost. induction Hpre as [| x pre Hx _ IH]; cbn [app].
  - rewrite sort_cons. apply sort_insert_head_le.
    rewrite (sort_perm by_points_desc post).
    eapply Forall_impl; [exact Hpost |]. unfold by_points_desc. cbn. lia.
  - rewrite sort_cons. apply sort_insert_head_gt; [exact IH |].
    unfold by_points_desc. lia.
Qed.

Lemma find_none_below (players : list Player) (t : Z) :
  Forall (fun q => points q < t) players ->
  List.find (fun p => t <=? points p) players = None.
Proof.
  induction 1 as [| x l Hx _ IH]; [reflexivity |]. cbn.
  destruct (Z.leb_spec t (points x)); [lia | exact IH].
Qed.

Lemma find_first_above (pre post : list Player) (p : Player) (t : Z) :
  Forall (fun q => points q < t) pre -> t <= points p ->
  List.find (fun p => t <=? points p) (pre ++ p :: post) = Some p.
Proof.
  intros Hpre Hp. induction Hpre as [| x l Hx _ IH]; cbn.
  - destruct (Z.leb_spec t (points p)); [reflexivity | lia].
  - destruct (Z.leb_spec t (points x)); [lia | exact IH].
Qed.

(** C1. [checkWinCondition] decides in this order:
    (1) the first player at or above the threshold wins;
    (2) failing that, once [step >= maxSteps], the first player among
        those with the most points wins;
    (3) failing that, a player who alone has points above zero wins;
    (4) failing that, there is no winner.
    In particular (1) does not look at [step] and [maxSteps]. *)
Theorem checkWinCondition_priority (players : list Player)
    (step maxSteps winThreshold : Z) :
  (forall pre p post,
      players = pre ++ p :: post ->
      Forall (fun q => points q < winThreshold) pre ->
      winThreshold <= points p ->
      checkWinCondition players step maxSteps winThreshold = Some (id p))
  /\ (Forall (fun q => points q < winThreshold) players ->
      maxSteps <= step ->
      forall pre p post,
        players = pre ++ p :: post ->
        Forall (fun q => points q < points p) pre ->
        Forall (fun q => points q <= points p) post ->
        checkWinCondition players step maxSteps winThreshold = Some (id p))
  /\ (Forall (fun q => points q < winThreshold) players ->
      step < maxSteps ->
      forall p,
        List.filter (fun q => 0 <? points q) players = [p] ->
        checkWinCondition players step maxSteps winThreshold = Some (id p))
  /\ (Forall (fun q => points q < winThreshold) players ->
      step < maxSteps ->
      length (List.filter (fun q => 0 <? points q) players) <> 1%nat ->
      checkWinCondition players step maxSteps winThreshold = None).
Proof.
  unfold checkWinCondition. repeat split.
  - intros pre p post -> Hpre Hp.
    by rewrite (find_first_above pre post p winThreshold).
  - intros Hnone Hstep pre p post -> Hpre Hpost.
    rewrite (find_none_below _ _ Hnone).
    destruct (Z.leb_spec maxSteps step); [| lia].
    change (fun a b : Player => points b - points a) with by_points_desc.
    by rewrite sort_head_first_max.
  - intros Hnone Hstep p Hactive.
    rewrite (find_none_below _ _ Hnone).
    destruct (Z.leb_spec maxSteps step); [lia |].
    by rewrite Hactive.
  - intros Hnone Hstep Hactive.
    rewrite (find_none_below _ _ Hnone).
    destruct (Z.leb_spec maxSteps step); [lia |].
    destruct (Z.eqb_spec
                (Z.of_nat (length (List.filter (fun q => 0 <? points q) players)))
                1); [lia | reflexivity].
Qed.

(** One run of each rule: a threshold-crosser ahead of a richer later one
    at the step limit; a tie at the step limit; attrition; no winner. *)
Lemma checkWinCondition_priority_witness :
  checkWinCondition [scored "a" 120; scored "b" 160; scored "c" 170] 10 10 150
  = Some "b"
  /\ checkWinCondition [scored "a" 120; scored "b" 130; scored "c" 130] 10 10 150
     = Some "b"
  /\ checkWinCondition [scored "a" 0; scored "b" 50] 3 10 150 = Some "b"
  /\ checkWinCondition [scored "a" 100; scored "b" 100] 3 10 150 = None.
Proof.
  split; [| split; [| split]].
  - apply (proj1 (checkWinCondition_priority _ 10 10 150)
             [scored "a" 120] (scored "b" 160) [scored "c" 170]);
      [reflexivity | repeat constructor | cbn; lia].
  - refine (proj1 (proj2 (checkWinCondition_priority _ 10 10 150)) _ _
              [scored "a" 120] (scored "b" 130) [scored "c" 130] _ _ _);
      [repeat constructor | lia | reflexivity | repeat constructor
      | repeat constructor; cbn; lia].
  - refine (proj1 (proj2 (proj2 (checkWinCondition_priority _ 3 10 150))) _ _
              (scored "b" 50) _);
      [repeat constructor | lia | reflexivity].
  - refine (proj2 (proj2 (proj2 (checkWinCondition_priority _ 3 10 150)))
              _ _ _);
      [repeat constructor | lia | cbn; lia].
Defined.

(** With no player at all, the step limit finds nobody to crown. *)
Example checkWinCondition_empty : checkWinCondition [] 10 10 150 = None.
Proof. reflexivity. Qed.

(** * Properties of the room actor *)

(** [logEvent] writes [history] and nothing else. *)
Lemma logEvent_history_only (type : string) (data : EventData) (now : Z)
    (s : RoomState) :
  exists h, logEvent type data now s = set_history h s.
Proof. unfold logEvent. case_match; eauto. Qed.

Ltac frame_logEvent :=
  repeat match goal with
    | |- context [logEvent ?t ?d ?n ?s] =>
        let h := fresh "h" in
        let Hh := fresh "Hh" in
        destruct (logEvent_history_only t d n s) as [h Hh]; rewrite Hh;
        clear Hh
    | H : context [logEvent ?t ?d ?n ?s] |- _ =>
        let h := fresh "h" in
        let Hh := fresh "Hh" in
        destruct (logEvent_history_only t d n s) as [h Hh]; rewrite Hh in H;
        clear Hh
    end.

(** The history never holds more than 100 events. *)
Lemma logEvent_bounded (type : string) (data : EventData) (now : Z)
    (s : RoomState) :
  (length (history s) <= 100)%nat ->
  (length (history (logEvent type data now s)) <= 100)%nat.
Proof.
  intros Hlen. unfold logEvent.
  set (h := history s ++ [_]).
  assert (Hh : length h = S (length (history s))).
  { subst h. rewrite length_app. cbn. lia. }
  destruct (Z.ltb_spec 100 (Z.of_nat (length h))) as [Hgt | Hle];
    cbn [set_history history].
  - unfold slice_last. rewrite length_drop. lia.
  - lia.
Qed.

Section Start.

Variable s : RoomState.
Variables playerId playerSecret : option string.
Variable now : Z.

Hypothesis in_lobby : status s = LOBBY.
Hypothesis has_id : falsy playerId = false.
Hypothesis has_secret : falsy playerSecret = false.
Hypothesis is_host : str_of playerId = hostId s.
Hypothesis authentic :
  is_Some (validatePlayer s (str_of playerId) (str_of playerSecret)).
Hypothesis enough : MIN_PLAYERS <= Z.of_nat (length (players s)).
Hypothesis all_ready : Forall (fun p => ready p = true) (players s).

Lemma handleStart_unfold :
  handleStart s playerId playerSecret now
  = (logEvent "GAME_STARTED"
       (GameStartedData (sr_pot (collectStakes (players s) (stake s)))) now
       (set_decisions ∅
          (set_captainIndex 0
             (set_step 1
                (set_phase CAPTAIN_TURN
                   (set_status PLAYING
                      (set_pot (sr_pot (collectStakes (players s) (stake s)))
                         (set_players
                            (sr_players (collectStakes (players s) (stake s)))
                            s))))))),
     jsonResponse SuccessBody 200).
Proof using All.
  unfold handleStart.
  rewrite in_lobby, has_id, has_secret, is_host.
  rewrite is_host in authentic. destruct authentic as [x ->].
  rewrite !bool_decide_eq_true_2 by done. cbn [negb orb].
  destruct (Z.ltb_spec (Z.of_nat (length (players s))) MIN_PLAYERS);
    [lia |].
  assert (forallb ready (players s) = true) as ->.
  { apply forallb_forall. intros p Hp.
    by apply (proj1 (Forall_forall _ _) all_ready), list_elem_of_In. }
  reflexivity.
Qed.

End Start.

(** C5. When the host, with valid credentials, starts a room that is in
    the lobby with at least two players, all ready, the answer is success
    and the room has: the pot at [stake * players.length], every player's
    points lowered by [stake] (and nothing else about them changed),
    status PLAYING, phase CAPTAIN_TURN, step 1, captain index 0 and no
    decisions.  In Scenario 1 (stake 10, Alice and Bob at 100 points) the
    pot becomes 20 and both have 90 points. *)
Theorem start_collects_stakes :
  (forall (s : RoomState) (playerId playerSecret : option string) (now : Z),
      status s = LOBBY ->
      falsy playerId = false -> falsy playerSecret = false ->
      str_of playerId = hostId s ->
      is_Some (validatePlayer s (str_of playerId) (str_of playerSecret)) ->
      MIN_PLAYERS <= Z.of_nat (length (players s)) ->
      Forall (fun p => ready p = true) (players s) ->
      let s' := (handleStart s playerId playerSecret now).1 in
      (handleStart s playerId playerSecret now).2 = jsonResponse SuccessBody 200
      /\ pot s' = stake s * Z.of_nat (length (players s))
      /\ Forall2 (fun p q => points q = points p - stake s /\ same_identity p q)
           (players s) (players s')
      /\ status s' = PLAYING /\ phase s' = CAPTAIN_TURN
      /\ step s' = 1 /\ captainIndex s' = 0 /\ decisions s' = ∅)
  /\ (observe <$> roomState scenario1_lobby
      = Some (LOBBY, WAIT_READY, 0, 0, 0, [("Alice", 100); ("Bob", 100)])
      /\ scenario1_start.2 = jsonResponse SuccessBody 200
      /\ observe <$> roomState scenario1_start.1
         = Some (PLAYING, CAPTAIN_TURN, 1, 0, 20, [("Alice", 90); ("Bob", 90)])).
Proof.
  split.
  - intros s playerId playerSecret now Hlobby Hid Hsecret Hhost Hauth Hn Hready.
    rewrite handleStart_unfold by assumption. cbn [fst snd].
    frame_logEvent. cbn.
    split; [reflexivity |]. split; [reflexivity |].
    split; [apply collectStakes_players | by repeat split].
  - by vm_compute.
Qed.

(** The general statement, applied to the lobby of Scenario 1. *)
Lemma start_collects_stakes_witness :
  let s := scenario1_lobby_state in
  let s' := (handleStart s (Some alice_id) (Some alice_secret) 6).1 in
  (status s = LOBBY /\ hostId s = alice_id
   /\ MIN_PLAYERS <= Z.of_nat (length (players s))
   /\ Forall (fun p => ready p = true) (players s))
  /\ pot s' = stake s * Z.of_nat (length (players s))
  /\ status s' = PLAYING.
Proof.
  intros s s'.
  assert (Hready : Forall (fun p => ready p = true) (players s))
    by (vm_compute; repeat constructor).
  assert (Hn : MIN_PLAYERS <= Z.of_nat (length (players s)))
    by (vm_compute; discriminate).
  assert (Hauth : is_Some (validatePlayer s (str_of (Some alice_id))
                             (str_of (Some alice_secret))))
    by (vm_compute; eexists; reflexivity).
  split; [repeat split; solve [reflexivity | assumption] |].
  destruct (proj1 start_collects_stakes s (Some alice_id) (Some alice_secret) 6
              eq_refl eq_refl eq_refl eq_refl Hauth Hn Hready)
    as (_ & Hpot & _ & Hstatus & _).
  split; [exact Hpot | exact Hstatus].
Defined.

(** ** Rejections *)

Example scenario1_decisions_observed :
  observe <$> roomState scenario1_decisions
  = Some (PLAYING, DECISIONS, 1, 0, 20, [("Alice", 90); ("Bob", 90)])
  /\ (decisions <$> roomState scenario1_decisions)
     = Some {[ alice_id := STAY ]}.
Proof. by vm_compute. Qed.

(** The role checks next to the captain's: Bob trying to roll in Alice's
    turn, Bob trying to start Alice's room, Alice with a wrong secret. *)
Example non_captain_roll_forbidden :
  (fetch scenario1_start.1
     (Action (Some bob_id) (Some bob_secret) CAPTAIN_ROLL "c"%byte) 7).2
  = jsonResponse (ErrorBody "Only captain can roll") 403.
Proof. by vm_compute. Qed.

Example non_host_start_forbidden :
  (fetch scenario1_lobby (Start (Some bob_id) (Some bob_secret)) 6).2
  = jsonResponse (ErrorBody "Only host can start the game") 403.
Proof. by vm_compute. Qed.

Example wrong_secret_unauthorized :
  (fetch scenario1_decisions
     (Action (Some alice_id) (Some bob_secret) (Decide STAY) "c"%byte) 8).2
  = jsonResponse (ErrorBody "Invalid credentials") 401.
Proof. by vm_compute. Qed.

Lemma with_room_unchanged (room : GameRoom) (s : RoomState)
    (handler : RoomState -> RoomState * Response) (r : Response) :
  roomState room = Some s -> handler s = (s, r) ->
  with_room room handler = (room, r).
Proof.
  intros Hs Hh. unfold with_room. rewrite Hs, Hh.
  destruct room as [rs ses]. cbn in *. by subst.
Qed.

(** C8, as the code has it. When the current captain, with valid
    credentials, sends STAY or LEAVE while the room is PLAYING in phase
    DECISIONS, the actor answers status 400 with the error
    "Captain cannot change decision" and stays exactly as it was: room
    state (decisions, phase and history included) and sessions. *)
Theorem captain_decision_rejected (room : GameRoom) (s : RoomState)
    (captain : Player) (playerSecret : option string) (d : Decision)
    (randomByte : byte) (now : Z) :
  roomState room = Some s ->
  status s = PLAYING ->
  phase s = DECISIONS ->
  at_index (players s) (captainIndex s) = Some captain ->
  falsy (Some (id captain)) = false ->
  falsy playerSecret = false ->
  is_Some (validatePlayer s (id captain) (str_of playerSecret)) ->
  fetch room (Action (Some (id captain)) playerSecret (Decide d) randomByte) now
  = (room, jsonResponse (ErrorBody "Captain cannot change decision") 400).
Proof.
  intros Hroom Hplaying Hphase Hcaptain Hid Hsecret [x Hauth].
  cbn [fetch]. apply with_room_unchanged with (s := s); [exact Hroom |].
  unfold handleAction.
  rewrite Hplaying, Hphase, Hid, Hsecret, Hcaptain.
  change (str_of (Some (id captain))) with (id captain).
  rewrite Hauth. rewrite !bool_decide_eq_true_2 by done. reflexivity.
Qed.

(** Alice, captain of the round, tries to STAY after her roll. *)
Lemma captain_decision_rejected_witness :
  falsy (Some alice_id) = false
  /\ fetch scenario1_decisions
       (Action (Some alice_id) (Some alice_secret) (Decide STAY) "000"%byte) 8
     = (scenario1_decisions,
        jsonResponse (ErrorBody "Captain cannot change decision") 400).
Proof.
  split; [reflexivity |].
  pose (s := state_of scenario1_decisions).
  pose (alice := mkPlayer alice_id alice_secret "Alice" 90 true false).
  refine (captain_decision_rejected scenario1_decisions s alice
            (Some alice_secret) STAY "000"%byte 8 _ _ _ _ _ _ _).
  - by vm_compute.
  - by vm_compute.
  - by vm_compute.
  - by vm_compute.
  - by vm_compute.
  - by vm_compute.
  - vm_compute. eexists. reflexivity.
Defined.

(** C8, as stated, fails: the rejection of the captain's STAY carries
    status 400, the status of the state and conflict rejections, not 401
    or 403. *)
Lemma captain_decision_not_auth_counterexample :
  (fetch scenario1_decisions
     (Action (Some alice_id) (Some alice_secret) (Decide STAY) "000"%byte) 8).2
  = jsonResponse (ErrorBody "Captain cannot change decision") 400
  /\ is_auth_rejection
       (fetch scenario1_decisions
          (Action (Some alice_id) (Some alice_secret) (Decide STAY) "000"%byte)
          8).2 = false.
Proof. by vm_compute. Qed.

(** ** Invariants of the reachable rooms *)

Lemma room_inv_logEvent (type : string) (data : EventData) (now : Z)
    (s : RoomState) :
  room_inv s -> room_inv (logEvent type data now s).
Proof. intros H. by frame_logEvent. Qed.

Lemma room_inv_nonneg (s : RoomState) :
  room_inv s -> Forall (fun p => 0 <= points p) (players s).
Proof.
  intros (_ & _ & H). destruct (status s); [| tauto | tauto].
  eapply Forall_impl; [exact H |]. cbn. unfold STARTING_POINTS. lia.
Qed.

Lemma validatePlayer_lookup (s : RoomState) (playerId playerSecret : string)
    (i : nat) (player : Player) :
  validatePlayer s playerId playerSecret = Some (i, player) ->
  players s !! i = Some player.
Proof.
  unfold validatePlayer. intros H.
  destruct (list_find _ (players s)) as [[j q] |] eqn:Hfind; [| done].
  case_decide; [| done]. injection H as -> ->.
  by apply list_find_Some in Hfind as (? & _).
Qed.

(** Overwriting a player by one with the same points keeps any property
    of the players' points. *)
Lemma Forall_points_insert (P : Z -> Prop) (l : list Player) (i : nat)
    (p q : Player) :
  l !! i = Some p -> points q = points p ->
  Forall (fun x => P (points x)) l ->
  Forall (fun x => P (points x)) (<[i := q]> l).
Proof.
  intros Hi Hpts Hall. apply Forall_insert; [exact Hall |].
  rewrite Hpts. by apply (Forall_lookup_1 _ _ _ _ Hall Hi).
Qed.

Lemma room_inv_replace_player (s : RoomState) (i : nat) (p q : Player) :
  players s !! i = Some p -> points q = points p ->
  room_inv s -> room_inv (set_players (<[i := q]> (players s)) s).
Proof.
  intros Hi Hpts (Hw & Hstake & Hpts_inv).
  split; [exact Hw |]. split; [exact Hstake |]. cbn.
  destruct (status s).
  - by apply (Forall_points_insert (fun z => z = STARTING_POINTS) _ _ p).
  - destruct Hpts_inv as [H ?]. split; [| done].
    by apply (Forall_points_insert (fun z => 0 <= z) _ _ p).
  - destruct Hpts_inv as [H ?]. split; [| done].
    by apply (Forall_points_insert (fun z => 0 <= z) _ _ p).
Qed.

Lemma handleCreate_inv (stake maxPlayers : Z) (roomToken : string) (now : Z)
    (s : RoomState) (r : Response) :
  handleCreate None stake maxPlayers roomToken now = (Some s, r) ->
  room_inv s.
Proof.
  unfold handleCreate.
  destruct (Z.eqb_spec stake 0), (Z.ltb_spec stake MIN_STAKE),
    (Z.ltb_spec MAX_STAKE stake); cbn [orb]; try discriminate.
  case_match; [discriminate |]. intros [= <- _].
  apply room_inv_logEvent. split; [| split]; cbn.
  - split; [by intros [? ?] | discriminate].
  - lia.
  - constructor.
Qed.

Lemma handleJoin_inv (s : RoomState) (nick credId credSecret : string)
    (now : Z) :
  room_inv s -> room_inv (handleJoin s nick credId credSecret now).1.
Proof.
  intros Hinv. unfold handleJoin, reject.
  case_bool_decide as Hlobby; cbn [negb]; [| exact Hinv].
  repeat (case_match; [exact Hinv |]). cbn [fst].
  apply room_inv_logEvent.
  destruct Hinv as (Hw & Hstake & Hpts). rewrite Hlobby in Hpts.
  assert (Hgoal : room_inv
            (set_players
               (players s ++ [mkPlayer credId credSecret (trim nick)
                                STARTING_POINTS false false]) s)).
  { split; [exact Hw |]. split; [exact Hstake |]. cbn. rewrite Hlobby.
    apply Forall_app. split; [exact Hpts |]. by repeat constructor. }
  case_match; exact Hgoal.
Qed.

Lemma handleReady_inv (s : RoomState) (playerId playerSecret : option string)
    (now : Z) :
  room_inv s -> room_inv (handleReady s playerId playerSecret now).1.
Proof.
  intros Hinv. unfold handleReady, reject.
  repeat (case_match; try exact Hinv); subst. cbn [fst].
  apply room_inv_logEvent.
  eapply room_inv_replace_player; [by eapply validatePlayer_lookup | | done].
  reflexivity.
Qed.

Lemma collectStakes_nonneg (l : list Player) (stake : Z) :
  stake <= STARTING_POINTS ->
  Forall (fun p => points p = STARTING_POINTS) l ->
  Forall (fun p => 0 <= points p) (sr_players (collectStakes l stake)).
Proof.
  intros Hstake Hl. cbn. apply Forall_map.
  eapply Forall_impl; [exact Hl |]. cbn. intros p ->. lia.
Qed.

Lemma handleStart_inv (s : RoomState) (playerId playerSecret : option string)
    (now : Z) :
  room_inv s -> room_inv (handleStart s playerId playerSecret now).1.
Proof.
  intros Hinv. unfold handleStart, reject.
  case_bool_decide as Hlobby; cbn [negb]; [| exact Hinv].
  repeat (case_match; try exact Hinv); subst. cbn [fst].
  apply room_inv_logEvent.
  destruct Hinv as (Hw & Hstake & Hpts). rewrite Hlobby in Hpts, Hw.
  unfold MIN_STAKE, MAX_STAKE in Hstake.
  split; [| split]; cbn [set_decisions set_captainIndex set_step set_phase
                          set_status set_pot set_players winnerId status
                          stake players pot].
  - split; [intros Hsome; by apply Hw in Hsome | discriminate].
  - exact Hstake.
  - split.
    + apply collectStakes_nonneg; [unfold STARTING_POINTS; lia | exact Hpts].
    + cbn. lia.
Qed.

Lemma truthy_Some (x : option string) (w : string) :
  truthy x = Some w -> x = Some w.
Proof. unfold truthy. by case_match. Qed.

Lemma distributePot_nonneg (l : list Player) (winner : string) (pot : Z) :
  0 <= pot ->
  Forall (fun p => 0 <= points p) l ->
  Forall (fun p => 0 <= points p) (distributePot l winner pot).
Proof.
  intros Hpot Hl. apply Forall_map.
  eapply Forall_impl; [exact Hl |]. cbn. intros p Hp.
  case_decide; cbn; lia.
Qed.

Lemma resolveAndAdvance_inv (now : Z) (s : RoomState) :
  status s = PLAYING -> room_inv s -> room_inv (resolveAndAdvance now s).
Proof.
  intros Hplaying Hinv. unfold resolveAndAdvance.
  destruct (lastRoll s) as [roll |]; [| exact Hinv].
  destruct Hinv as (Hw & Hstake & Hpts). rewrite Hplaying in Hpts, Hw.
  destruct Hpts as [Hpts Hpot].
  pose proof (resolveRound_nonneg (decisions s) roll _ Hpts) as Hres.
  frame_logEvent. cbn zeta.
  cbn [set_history set_players players step maxSteps winThreshold pot
       captainIndex decisions].
  destruct (truthy (checkWinCondition _ _ _ _)) as [w |] eqn:Hwin.
  - apply truthy_Some in Hwin. apply room_inv_logEvent.
    split; [| split]; cbn.
    + rewrite Hwin. split; [done | by eexists].
    + exact Hstake.
    + split; [by apply distributePot_nonneg | lia].
  - split; [| split]; cbn; rewrite ?Hplaying.
    + split; [intros Hsome; by apply Hw in Hsome | discriminate].
    + exact Hstake.
    + by split.
Qed.

Lemma handleAction_inv (s : RoomState) (playerId playerSecret : option string)
    (type : ActionType) (randomByte : byte) (now : Z) :
  room_inv s ->
  room_inv (handleAction s playerId playerSecret type randomByte now).1.
Proof.
  intros Hinv. unfold handleAction, reject.
  case_bool_decide as Hplaying; cbn [negb]; [| exact Hinv].
  destruct (falsy playerId || falsy playerSecret); [exact Hinv |].
  destruct (validatePlayer s _ _) as [_ |]; [| exact Hinv].
  destruct type as [| d | other]; [| | exact Hinv].
  - destruct (negb (bool_decide (phase s = CAPTAIN_TURN))); [exact Hinv |].
    destruct (at_index (players s) (captainIndex s)) as [captain |];
      [| exact Hinv].
    destruct (negb (bool_decide (str_of playerId = id captain)));
      [exact Hinv |].
    set (s1 := logEvent _ _ _ _).
    assert (H1 : room_inv s1) by (subst s1; by apply room_inv_logEvent).
    assert (Hs1 : status s1 = PLAYING)
      by (subst s1; frame_logEvent; exact Hplaying).
    cbn zeta. case_match; cbn [fst]; [by apply resolveAndAdvance_inv | done].
  - destruct (negb (bool_decide (phase s = DECISIONS))); [exact Hinv |].
    destruct (at_index (players s) (captainIndex s)) as [captain |];
      [| exact Hinv].
    destruct (bool_decide (str_of playerId = id captain)); [exact Hinv |].
    destruct (bool_decide (is_Some (decisions s !! str_of playerId)));
      [exact Hinv |].
    set (s1 := logEvent _ _ _ _).
    assert (H1 : room_inv s1) by (subst s1; by apply room_inv_logEvent).
    assert (Hs1 : status s1 = PLAYING)
      by (subst s1; frame_logEvent; exact Hplaying).
    cbn zeta. case_match; cbn [fst]; [by apply resolveAndAdvance_inv | done].
Qed.

Lemma with_room_ok (room : GameRoom)
    (handler : RoomState -> RoomState * Response) :
  (forall s, room_inv s -> room_inv (handler s).1) ->
  room_ok room -> room_ok (with_room room handler).1.
Proof.
  intros Hh Hroom. unfold with_room.
  destruct (roomState room) as [s |] eqn:Hs; [| exact Hroom].
  specialize (Hh s (Hroom s Hs)). destruct (handler s) as [s' r].
  intros s'' [= <-]. exact Hh.
Qed.

Lemma handleWebSocket_ok (room : GameRoom) (server : nat)
    (playerId playerSecret : option string) :
  room_ok room ->
  room_ok (handleWebSocket room server playerId playerSecret).1.
Proof.
  intros Hroom. unfold handleWebSocket.
  destruct (roomState room) as [s |] eqn:Hs; [| exact Hroom].
  destruct (falsy playerId || falsy playerSecret); [exact Hroom |].
  destruct (validatePlayer s _ _) as [[i player] |] eqn:Hv; [| exact Hroom].
  intros s' [= <-].
  eapply room_inv_replace_player;
    [by eapply validatePlayer_lookup | reflexivity | by apply Hroom].
Qed.

Lemma onClose_ok (room : GameRoom) (server : nat) :
  room_ok room -> room_ok (onClose room server).
Proof.
  intros Hroom. unfold onClose. intros s'. cbn [roomState].
  destruct (truthy (sessions room !! server)) as [pid |]; [| apply Hroom].
  destruct (roomState room) as [s |] eqn:Hs; [| done].
  destruct (list_find _ (players s)) as [[i player] |] eqn:Hfind.
  - intros [= <-]. apply list_find_Some in Hfind as (Hi & _).
    eapply room_inv_replace_player; [exact Hi | reflexivity | by apply Hroom].
  - intros [= <-]. by apply Hroom.
Qed.

Lemma fetch_ok (room : GameRoom) (request : Request) (now : Z) :
  room_ok room -> room_ok (fetch room request now).1.
Proof.
  intros Hroom. destruct request; cbn [fetch].
  - destruct (roomState room) as [s |] eqn:Hs.
    + cbn. intros s' [= <-]. by apply Hroom.
    + destruct (handleCreate None _ _ _ _) as [rs r] eqn:Hc. cbn.
      intros s' Hs'. cbn in Hs'. subst rs. by eapply handleCreate_inv.
  - apply with_room_ok; [| exact Hroom]. intros. by apply handleJoin_inv.
  - apply with_room_ok; [| exact Hroom]. intros. by apply handleReady_inv.
  - apply with_room_ok; [| exact Hroom]. intros. by apply handleStart_inv.
  - apply with_room_ok; [| exact Hroom]. intros. by apply handleAction_inv.
  - by apply handleWebSocket_ok.
Qed.

(** Every room the actor can reach satisfies the invariant. *)
Lemma reachable_room_ok (room : GameRoom) : reachable room -> room_ok room.
Proof.
  unfold reachable. intros Hreach.
  apply rtc_ind_r with (x := newGameRoom) (P := room_ok) in Hreach; [done | |].
  - intros s. discriminate.
  - intros r1 r2 _ Hstep IH. destruct Hstep as [r request now | r server].
    + by apply fetch_ok.
    + by apply onClose_ok.
Qed.

(** Reachability of what a list of requests leads to. *)
Lemma serve_reachable (room : GameRoom) (requests : list (Request * Z)) :
  reachable room -> reachable (serve room requests).
Proof.
  revert room. induction requests as [| [request now] rest IH]; intros room Hr.
  - exact Hr.
  - cbn. apply IH. eapply rtc_r; [exact Hr | constructor].
Qed.

(** ** A whole game *)

Example scenario2_observed :
  observe <$> roomState scenario2_room
  = Some (PLAYING, CAPTAIN_TURN, 2, 1, 20, [("Alice", 95); ("Bob", 95)]).
Proof. by vm_compute. Qed.

Example finished_room_observed :
  observe <$> roomState finished_room
  = Some (FINISHED, DECISIONS, 10, 1, 0, [("Alice", 125); ("Bob", 45)])
  /\ winnerId (state_of finished_room) = Some alice_id.
Proof. by vm_compute. Qed.

(** C3. In every room state the actor can reach (through create, join,
    ready, start, action with its round resolution, and sockets opening
    and closing) no player has negative points; in the lobby every player
    holds the 100 starting points, and the stake is between 5 and 50. *)
Theorem points_never_negative (room : GameRoom) (s : RoomState) :
  reachable room ->
  roomState room = Some s ->
  Forall (fun p => 0 <= points p) (players s)
  /\ (status s = LOBBY ->
      Forall (fun p => points p = STARTING_POINTS) (players s))
  /\ MIN_STAKE <= stake s <= MAX_STAKE.
Proof.
  intros Hreach Hs.
  pose proof (reachable_room_ok room Hreach s Hs) as Hinv.
  split; [by apply room_inv_nonneg |].
  destruct Hinv as (_ & Hstake & Hpts).
  split; [| exact Hstake]. intros Hlobby. by rewrite Hlobby in Hpts.
Qed.

(** The room of Scenario 2 is reachable and its state obeys the bound. *)
Lemma points_never_negative_witness :
  reachable scenario2_room
  /\ roomState scenario2_room = Some (state_of scenario2_room)
  /\ Forall (fun p => 0 <= points p) (players (state_of scenario2_room)).
Proof.
  assert (Hreach : reachable scenario2_room)
    by (apply serve_reachable; apply rtc_refl).
  assert (Hs : roomState scenario2_room = Some (state_of scenario2_room))
    by (vm_compute; reflexivity).
  split; [exact Hreach |]. split; [exact Hs |].
  exact (proj1 (points_never_negative scenario2_room _ Hreach Hs)).
Defined.

(** C7. A fresh room has no winner and is in the lobby, and in every
    room state the actor can reach [winnerId] is set if and only if the
    status is FINISHED. *)
Theorem winner_iff_finished :
  (forall roomToken stake maxPlayers,
      winnerId (createInitialState roomToken stake maxPlayers) = None
      /\ status (createInitialState roomToken stake maxPlayers) = LOBBY)
  /\ (forall room s,
        reachable room ->
        roomState room = Some s ->
        (is_Some (winnerId s) <-> status s = FINISHED)).
Proof.
  split; [by split |].
  intros room s Hreach Hs.
  exact (proj1 (reachable_room_ok room Hreach s Hs)).
Qed.

(** After the ten rounds the room is FINISHED and names its winner; after
    one round it is PLAYING and names none. *)
Lemma winner_iff_finished_witness :
  (reachable finished_room
   /\ status (state_of finished_room) = FINISHED
   /\ is_Some (winnerId (state_of finished_room)))
  /\ (reachable scenario2_room
      /\ winnerId (state_of scenario2_room) = None
      /\ status (state_of scenario2_room) <> FINISHED).
Proof.
  assert (Hfin : reachable finished_room)
    by (apply serve_reachable; apply rtc_refl).
  assert (Hsc2 : reachable scenario2_room)
    by (apply serve_reachable; apply rtc_refl).
  assert (Hfs : roomState finished_room = Some (state_of finished_room))
    by (vm_compute; reflexivity).
  assert (Hss : roomState scenario2_room = Some (state_of scenario2_room))
    by (vm_compute; reflexivity).
  assert (Hstatus : status (state_of finished_room) = FINISHED)
    by (vm_compute; reflexivity).
  assert (Hnone : winnerId (state_of scenario2_room) = None)
    by (vm_compute; reflexivity).
  split.
  - split; [exact Hfin |]. split; [exact Hstatus |].
    exact (proj2 (proj2 winner_iff_finished _ _ Hfin Hfs) Hstatus).
  - split; [exact Hsc2 |]. split; [exact Hnone |].
    intros Hfinished.
    apply (proj2 winner_iff_finished _ _ Hsc2 Hss) in Hfinished.
    rewrite Hnone in Hfinished. by destruct Hfinished.
Defined.

(** * Tokens and credentials *)

Lemma hex_digit_facts (n : N) :
  (n < 16)%N ->
  is_lower_hex (hex_digit n) = true
  /\ is_upper_hex (upper_ascii (hex_digit n)) = true
  /\ hex_value (hex_digit n) = Some n
  /\ hex_value (upper_ascii (hex_digit n)) = Some n.
Proof.
  intros Hn. rewrite <- (N2Nat.id n).
  assert (Hk : (N.to_nat n < 16)%nat) by lia. clear Hn.
  revert Hk. generalize (N.to_nat n). clear n. intros k Hk.
  do 16 (destruct k as [| k]; [by vm_compute |]). lia.
Qed.

Lemma padStart_toString16 (b : byte) :
  padStart 2 "0" (toString16 b)
  = String (hex_digit (Byte.to_N b / 16))
      (String (hex_digit (Byte.to_N b mod 16)) EmptyString).
Proof.
  unfold toString16. destruct (N.ltb_spec (Byte.to_N b) 16) as [Hlt | Hge].
  - rewrite N.div_small, N.mod_small by exact Hlt. reflexivity.
  - reflexivity.
Qed.

(** A byte is written as exactly two lower-case hexadecimal digits that
    read back as the byte, also after upper-casing. *)
Lemma byte_hex_digits (b : byte) :
  exists c1 c2,
    padStart 2 "0" (toString16 b) = String c1 (String c2 EmptyString)
    /\ is_lower_hex c1 = true /\ is_lower_hex c2 = true
    /\ is_upper_hex (upper_ascii c1) = true
    /\ is_upper_hex (upper_ascii c2) = true
    /\ decode_byte c1 c2 = Some b
    /\ decode_byte (upper_ascii c1) (upper_ascii c2) = Some b.
Proof.
  pose proof (Byte.to_N_bounded b) as Hb.
  assert (Hhi : (Byte.to_N b / 16 < 16)%N)
    by (apply N.Div0.div_lt_upper_bound; lia).
  assert (Hlo : (Byte.to_N b mod 16 < 16)%N) by (apply N.mod_lt; lia).
  destruct (hex_digit_facts _ Hhi) as (H1 & H2 & H3 & H4).
  destruct (hex_digit_facts _ Hlo) as (L1 & L2 & L3 & L4).
  exists (hex_digit (Byte.to_N b / 16)), (hex_digit (Byte.to_N b mod 16)).
  split; [apply padStart_toString16 |]. repeat split; try assumption.
  - unfold decode_byte. rewrite H3, L3.
    rewrite <- N.div_mod by lia. apply Byte.of_to_N.
  - unfold decode_byte. rewrite H4, L4.
    rewrite <- N.div_mod by lia. apply Byte.of_to_N.
Qed.

Lemma hex_of_bytes_cons (b : byte) (l : list byte) :
  exists c1 c2,
    hex_of_bytes (b :: l) = String c1 (String c2 (hex_of_bytes l))
    /\ is_lower_hex c1 = true /\ is_lower_hex c2 = true
    /\ is_upper_hex (upper_ascii c1) = true
    /\ is_upper_hex (upper_ascii c2) = true
    /\ decode_byte c1 c2 = Some b
    /\ decode_byte (upper_ascii c1) (upper_ascii c2) = Some b.
Proof.
  destruct (byte_hex_digits b) as (c1 & c2 & Heq & H).
  exists c1, c2. split; [| exact H].
  change (hex_of_bytes (b :: l))
    with (String.app (padStart 2 "0" (toString16 b)) (hex_of_bytes l)).
  by rewrite Heq.
Qed.

Lemma hex_of_bytes_length (l : list byte) :
  String.length (hex_of_bytes l) = (2 * length l)%nat.
Proof.
  induction l as [| b l IH]; [reflexivity |].
  destruct (hex_of_bytes_cons b l) as (c1 & c2 & -> & _).
  cbn [String.length length]. lia.
Qed.

Lemma hex_of_bytes_lower (l : list byte) :
  Forall (fun c => is_lower_hex c = true) (chars (hex_of_bytes l)).
Proof.
  induction l as [| b l IH]; [constructor |].
  destruct (hex_of_bytes_cons b l) as (c1 & c2 & -> & H1 & H2 & _).
  by repeat constructor.
Qed.

Lemma hex_of_bytes_round_trip (l : list byte) :
  bytes_of_hex (hex_of_bytes l) = Some l.
Proof.
  induction l as [| b l IH]; [reflexivity |].
  destruct (hex_of_bytes_cons b l)
    as (c1 & c2 & -> & _ & _ & _ & _ & Hd & _).
  cbn [bytes_of_hex]. by rewrite Hd, IH.
Qed.

Lemma toUpperCase_length (s : string) :
  String.length (toUpperCase s) = String.length s.
Proof. induction s; cbn; congruence. Qed.

Lemma upper_hex_of_bytes_upper (l : list byte) :
  Forall (fun c => is_upper_hex c = true) (chars (toUpperCase (hex_of_bytes l))).
Proof.
  induction l as [| b l IH]; [constructor |].
  destruct (hex_of_bytes_cons b l) as (c1 & c2 & -> & _ & _ & H1 & H2 & _).
  cbn [toUpperCase]. by repeat constructor.
Qed.

Lemma upper_hex_of_bytes_round_trip (l : list byte) :
  bytes_of_hex (toUpperCase (hex_of_bytes l)) = Some l.
Proof.
  induction l as [| b l IH]; [reflexivity |].
  destruct (hex_of_bytes_cons b l)
    as (c1 & c2 & -> & _ & _ & _ & _ & _ & Hd).
  cbn [toUpperCase bytes_of_hex]. by rewrite Hd, IH.
Qed.

(** X1. A room token is eight characters among [0-9A-F] that read back as
    the four bytes drawn; two draws give the same token only if they are
    the same bytes. *)
Theorem generateRoomToken_round_trip (array : vec byte 4) :
  String.length (generateRoomToken array) = 8%nat
  /\ Forall (fun c => is_upper_hex c = true) (chars (generateRoomToken array))
  /\ bytes_of_hex (generateRoomToken array) = Some (vec_to_list array)
  /\ (forall array',
        generateRoomToken array = generateRoomToken array' ->
        array = array').
Proof.
  unfold generateRoomToken. split; [| split; [| split]].
  - by rewrite toUpperCase_length, hex_of_bytes_length, length_vec_to_list.
  - apply upper_hex_of_bytes_upper.
  - apply upper_hex_of_bytes_round_trip.
  - intros array' Heq. apply vec_to_list_inj2.
    apply (f_equal bytes_of_hex) in Heq.
    rewrite !upper_hex_of_bytes_round_trip in Heq. congruence.
Qed.

Lemma generateRoomToken_round_trip_witness :
  generateRoomToken [# "026"; "043"; "060"; "077"]%byte = "1A2B3C4D"
  /\ bytes_of_hex "1A2B3C4D" = Some ["026"; "043"; "060"; "077"]%byte.
Proof.
  split; [reflexivity |].
  exact (proj1 (proj2 (proj2
           (generateRoomToken_round_trip
              [# "026"; "043"; "060"; "077"]%byte)))).
Defined.

(** X2. Player credentials are an id of 16 and a secret of 32 characters
    among [0-9a-f] (so neither is empty) that read back as the bytes
    drawn; different bytes give different ids and secrets. *)
Theorem generatePlayerCredentials_round_trip (idArray : vec byte 8)
    (secretArray : vec byte 16) :
  let c := generatePlayerCredentials idArray secretArray in
  (String.length (cred_id c) = 16%nat
   /\ String.length (cred_secret c) = 32%nat)
  /\ (Forall (fun c => is_lower_hex c = true) (chars (cred_id c))
      /\ Forall (fun c => is_lower_hex c = true) (chars (cred_secret c)))
  /\ (bytes_of_hex (cred_id c) = Some (vec_to_list idArray)
      /\ bytes_of_hex (cred_secret c) = Some (vec_to_list secretArray))
  /\ (falsy (Some (cred_id c)) = false
      /\ falsy (Some (cred_secret c)) = false)
  /\ (forall idArray' secretArray',
        cred_id (generatePlayerCredentials idArray' secretArray') = cred_id c
        -> idArray' = idArray).
Proof.
  cbn [generatePlayerCredentials cred_id cred_secret].
  assert (Hne : forall n (v : vec byte (S n)),
             falsy (Some (hex_of_bytes (vec_to_list v))) = false).
  { intros n v. unfold falsy. apply bool_decide_eq_false. intros Heq.
    apply (f_equal String.length) in Heq.
    rewrite hex_of_bytes_length, length_vec_to_list in Heq. discriminate. }
  repeat split;
    try (by rewrite hex_of_bytes_length, length_vec_to_list);
    try apply hex_of_bytes_lower; try apply hex_of_bytes_round_trip;
    try apply Hne.
  intros idArray' secretArray' Heq. apply vec_to_list_inj2.
  apply (f_equal bytes_of_hex) in Heq.
  rewrite !hex_of_bytes_round_trip in Heq. congruence.
Qed.

Lemma generatePlayerCredentials_round_trip_witness :
  cred_id (generatePlayerCredentials
             [# "161"; "028"; "224"; "000"; "000"; "000"; "000"; "001"]%byte
             [# "094"; "194"; "231"; "000"; "000"; "000"; "000"; "000";
                "000"; "000"; "000"; "000"; "000"; "010"; "017"; "206"]%byte)
  = alice_id
  /\ bytes_of_hex alice_id
     = Some ["161"; "028"; "224"; "000"; "000"; "000"; "000"; "001"]%byte.
Proof.
  split; [reflexivity |].
  exact (proj1 (proj1 (proj2 (proj2
           (generatePlayerCredentials_round_trip
              [# "161"; "028"; "224"; "000"; "000"; "000"; "000"; "001"]%byte
              [# "094"; "194"; "231"; "000"; "000"; "000"; "000"; "000";
                 "000"; "000"; "000"; "000"; "000"; "010"; "017"; "206"]%byte))))).
Defined.

(** * More on the rules engine *)

Lemma all_bytes_complete (b : byte) : b ∈ all_bytes.
Proof.
  unfold all_bytes. apply list_elem_of_fmap.
  exists (N.to_nat (Byte.to_N b)). split.
  - by rewrite N2Nat.id, Byte.of_to_N.
  - apply list_elem_of_In, in_seq. pose proof (Byte.to_N_bounded b). lia.
Qed.

Lemma Z_range_100 (f : Z -> bool) :
  forallb f (map Z.of_nat (seq 1 100)) = true ->
  forall v, 1 <= v <= 100 -> f v = true.
Proof.
  intros H v Hv. rewrite forallb_forall in H. apply H.
  apply in_map_iff. exists (Z.to_nat v). split; [lia |].
  apply in_seq. lia.
Qed.

(** X3. The roll is not uniform: of the 256 bytes, three give each value
    from 1 to 56 and two give each value from 57 to 100 (so every value
    can be rolled), and 139 bytes give a success. *)
Theorem rollChallenge_distribution :
  NoDup all_bytes
  /\ (forall b, b ∈ all_bytes)
  /\ (forall v, 1 <= v <= 100 ->
        bytes_rolling v = if v <=? 56 then 3%nat else 2%nat)
  /\ length (List.filter (fun b => success (rollChallenge b 0)) all_bytes)
     = 139%nat.
Proof.
  split; [| split; [exact all_bytes_complete | split]].
  - apply (bool_decide_unpack (NoDup all_bytes)). by vm_compute.
  - intros v Hv. apply Nat.eqb_eq. revert v Hv.
    apply (Z_range_100
             (fun v => Nat.eqb (bytes_rolling v)
                         (if v <=? 56 then 3%nat else 2%nat))).
    by vm_compute.
  - by vm_compute.
Qed.

Lemma rollChallenge_distribution_witness :
  bytes_rolling 56 = 3%nat /\ bytes_rolling 57 = 2%nat.
Proof.
  split.
  - apply (proj1 (proj2 (proj2 rollChallenge_distribution)) 56). lia.
  - apply (proj1 (proj2 (proj2 rollChallenge_distribution)) 57). lia.
Defined.

Lemma distributePot_identity (players : list Player) (winner : string)
    (pot : Z) :
  Forall2 same_identity players (distributePot players winner pot).
Proof.
  induction players as [| p ps IH]; [constructor |].
  constructor; [| exact IH]. cbn.
  case_decide; auto using same_identity_refl, same_identity_with_points.
Qed.

Lemma distributePot_total (players : list Player) (winner : string) (pot : Z) :
  total_points (distributePot players winner pot)
  = total_points players + pot * count_id players winner.
Proof.
  unfold count_id.
  induction players as [| p ps IH]; [cbn; lia |].
  cbn [distributePot map total_points foldr List.filter].
  change (foldr _ 0 (map _ ps)) with (total_points (distributePot ps winner pot)).
  change (foldr _ 0 ps) with (total_points ps).
  rewrite IH. case_decide as Hid.
  - rewrite bool_decide_eq_true_2 by done. cbn [points with_points length].
    lia.
  - rewrite bool_decide_eq_false_2 by done. lia.
Qed.

(** X4. [distributePot] touches points only: it adds the pot to every
    player carrying the winner's id and leaves the others alone, so the
    total grows by the pot once per such player; with an id that nobody
    carries the list comes back as it was. *)
Theorem distributePot_spec (players : list Player) (winner : string)
    (pot : Z) :
  Forall2 (fun p q =>
             same_identity p q
             /\ points q = points p + (if decide (id p = winner) then pot else 0))
    players (distributePot players winner pot)
  /\ total_points (distributePot players winner pot)
     = total_points players + pot * count_id players winner
  /\ (Forall (fun p => id p <> winner) players ->
      distributePot players winner pot = players).
Proof.
  split; [| split; [apply distributePot_total |]].
  - induction players as [| p ps IH]; [constructor |].
    constructor; [| exact IH]. cbn. case_decide; cbn.
    + split; [apply same_identity_with_points | reflexivity].
    + split; [apply same_identity_refl | lia].
  - induction 1 as [| p ps Hp _ IH]; [reflexivity |].
    cbn. rewrite decide_False by done. f_equal. exact IH.
Qed.

Lemma distributePot_spec_witness :
  Forall (fun p => id p <> "nobody") three_players
  /\ distributePot three_players "nobody" 30 = three_players
  /\ map points (distributePot three_players "p3" 30) = [100; 100; 34].
Proof.
  assert (H : Forall (fun p => id p <> "nobody") three_players)
    by (repeat constructor; discriminate).
  split; [exact H |]. split; [| reflexivity].
  exact (proj2 (proj2 (distributePot_spec three_players "nobody" 30)) H).
Defined.

Lemma collectStakes_total (players : list Player) (stake : Z) :
  total_points (sr_players (collectStakes players stake))
  + sr_pot (collectStakes players stake)
  = total_points players.
Proof.
  cbn [collectStakes sr_players sr_pot].
  induction players as [| p ps IH]; [cbn; lia |].
  cbn [map total_points foldr length points with_points].
  change (foldr _ 0 (map _ ps))
    with (total_points (map (fun q => with_points q (points q - stake)) ps)).
  change (foldr _ 0 ps) with (total_points ps). lia.
Qed.

Lemma count_id_map_identity (l l' : list Player) (i : string) :
  Forall2 same_identity l l' -> count_id l' i = count_id l i.
Proof.
  unfold count_id. induction 1 as [| p q ps qs (Hid & _) _ IH]; [reflexivity |].
  cbn [List.filter]. rewrite Hid.
  destruct (bool_decide (id p = i)); cbn [length]; lia.
Qed.

(** X5. Collecting stakes moves points into the pot without creating or
    losing any: the players' total plus the pot equals the total before.
    Paying that pot out to an id carried by exactly one player restores
    the total. *)
Theorem stakes_are_conserved (players : list Player) (stake : Z) :
  total_points (sr_players (collectStakes players stake))
  + sr_pot (collectStakes players stake)
  = total_points players
  /\ (forall winner,
        count_id players winner = 1 ->
        total_points
          (distributePot (sr_players (collectStakes players stake)) winner
             (sr_pot (collectStakes players stake)))
        = total_points players).
Proof.
  split; [apply collectStakes_total |].
  intros winner Hone. rewrite distributePot_total.
  rewrite (count_id_map_identity players).
  - rewrite Hone, Z.mul_1_r. apply collectStakes_total.
  - eapply Forall2_impl; [apply collectStakes_players |]. cbn. tauto.
Qed.

Lemma stakes_are_conserved_witness :
  count_id three_players "p2" = 1
  /\ total_points
       (distributePot (sr_players (collectStakes three_players 10)) "p2"
          (sr_pot (collectStakes three_players 10)))
     = total_points three_players.
Proof.
  split; [reflexivity |].
  exact (proj2 (stakes_are_conserved three_players 10) "p2" eq_refl).
Defined.



(** X7. A winner named by [checkWinCondition] is the id of a player of
    the list; the empty list has no winner; and at the step limit a list
    with at least one player always has one. *)
Theorem checkWinCondition_winner (players : list Player)
    (step maxSteps winThreshold : Z) :
  (forall w,
      checkWinCondition players step maxSteps winThreshold = Some w ->
      exists p, p ∈ players /\ id p = w)
  /\ checkWinCondition [] step maxSteps winThreshold = None
  /\ (players <> [] -> maxSteps <= step ->
      is_Some (checkWinCondition players step maxSteps winThreshold)).
Proof.
  split; [| split].
  - intros w. unfold checkWinCondition.
    destruct (List.find _ players) as [t |] eqn:Hfind.
    + intros [= <-]. apply find_some in Hfind as [Hin _].
      exists t. by rewrite list_elem_of_In.
    + destruct (maxSteps <=? step).
      * destruct (sort _ players !! 0%nat) as [p |] eqn:Hhd; [| done].
        intros [= <-]. exists p. split; [| done].
        apply list_elem_of_lookup_2 in Hhd. by rewrite sort_perm in Hhd.
      * destruct (_ =? 1); [| done].
        destruct (List.filter _ players !! 0%nat) as [p |] eqn:Hhd; [| done].
        intros [= <-]. exists p. split; [| done].
        apply list_elem_of_lookup_2, list_elem_of_In, filter_In in Hhd.
        apply list_elem_of_In. tauto.
  - unfold checkWinCondition. cbn. by destruct (maxSteps <=? step).
  - intros Hne Hstep. unfold checkWinCondition.
    destruct (List.find _ players); [by eexists |].
    destruct (Z.leb_spec maxSteps step); [| lia].
    pose proof (Permutation_length
                  (sort_perm (fun a b => points b - points a) players)) as Hlen.
    destruct (sort _ players) as [| p sorted]; [| by eexists].
    destruct players; [done | discriminate].
Qed.

Lemma checkWinCondition_winner_witness :
  [scored "a" 120; scored "b" 130] <> []
  /\ is_Some (checkWinCondition [scored "a" 120; scored "b" 130] 10 10 150)
  /\ exists p, p ∈ [scored "a" 120; scored "b" 130] /\ id p = "b".
Proof.
  assert (Hne : [scored "a" 120; scored "b" 130] <> []) by discriminate.
  split; [exact Hne |]. split.
  - apply (proj2 (proj2 (checkWinCondition_winner _ 10 10 150)) Hne). lia.
  - apply (proj1 (checkWinCondition_winner _ 10 10 150)). reflexivity.
Defined.

(** * More on the room actor *)

Lemma last_drop_lt {A : Type} (n : nat) (l : list A) :
  (n < length l)%nat -> last (drop n l) = last l.
Proof.
  intros Hn. rewrite !last_lookup, lookup_drop, length_drop. f_equal. lia.
Qed.

(** X8. [logEvent] always keeps the event it logs as the newest entry.
    Below 100 entries it appends; on the 101st it keeps the newest 50, so
    a history of at most 100 entries stays at most 100 long, and what
    remains is always the tail of the old history and the new event. *)
Theorem logEvent_spec (type : string) (data : EventData) (now : Z)
    (s : RoomState) :
  let event := mkGameEvent type now data in
  let h' := history (logEvent type data now s) in
  last h' = Some event
  /\ h' `suffix_of` (history s ++ [event])
  /\ ((length (history s) < 100)%nat -> h' = history s ++ [event])
  /\ (length (history s) = 100%nat -> length h' = 50%nat)
  /\ ((length (history s) <= 100)%nat -> (length h' <= 100)%nat).
Proof.
  intros event h'. subst h'. unfold logEvent. fold event.
  set (h := history s ++ [event]).
  assert (Hlen : length h = S (length (history s)))
    by (subst h; rewrite length_app; cbn; lia).
  destruct (Z.ltb_spec 100 (Z.of_nat (length h))) as [Hgt | Hle];
    cbn [set_history history].
  - unfold slice_last. split; [| split; [| split; [| split]]].
    + rewrite last_drop_lt by lia. subst h. apply last_snoc.
    + apply suffix_drop.
    + lia.
    + intros H. rewrite length_drop. lia.
    + intros H. rewrite length_drop. lia.
  - split; [| split; [| split; [| split]]].
    + subst h. apply last_snoc.
    + reflexivity.
    + reflexivity.
    + lia.
    + lia.
Qed.

Lemma logEvent_spec_witness :
  let s := state_of scenario2_room in
  (length (history s) < 100)%nat
  /\ history (logEvent "PING" (GameStartedData 0) 9 s)
     = history s ++ [mkGameEvent "PING" 9 (GameStartedData 0)].
Proof.
  intros s.
  assert (H : (length (history s) < 100)%nat) by (vm_compute; lia).
  split; [exact H |].
  exact (proj1 (proj2 (proj2 (logEvent_spec "PING" (GameStartedData 0) 9 s))) H).
Defined.

(** X9. The public projection shows neither secrets nor the event log:
    replacing every player's secret and the whole history leaves
    [getPublicState] unchanged; and [handleGetState] answers 404 exactly
    when the room does not exist. *)
Theorem getPublicState_hides_secrets (s : RoomState)
    (newSecret : Player -> string) (newHistory : list GameEvent)
    (room : GameRoom) :
  getPublicState
    (Some (set_history newHistory
             (set_players
                (map (fun p => set_secret (newSecret p) p) (players s)) s)))
  = getPublicState (Some s)
  /\ (snd (handleGetState room) = 404 <-> roomState room = None)
  /\ (snd (handleGetState room) = 200 <-> is_Some (roomState room)).
Proof.
  split; [| split].
  - cbn. do 2 f_equal. rewrite map_map. reflexivity.
  - unfold handleGetState. destruct (roomState room); cbn; split; done.
  - unfold handleGetState. destruct (roomState room); cbn; split;
      try done; try (by eexists); by intros [? ?].
Qed.

Lemma getPublicState_hides_secrets_witness :
  roomState newGameRoom = None /\ snd (handleGetState newGameRoom) = 404.
Proof.
  split; [reflexivity |].
  exact (proj2 (proj1 (proj2 (getPublicState_hides_secrets
                                (state_of newGameRoom) secret [] newGameRoom)))
           eq_refl).
Defined.

(** ** What each handler can do to the room state *)

Lemma truthy_nonempty (x : option string) (w : string) :
  truthy x = Some w -> x = Some w /\ w <> EmptyString.
Proof.
  unfold truthy, falsy. destruct x as [v |]; [| done].
  case_bool_decide; [done |]. by intros [= ->].
Qed.

Lemma falsy_false (x : option string) :
  falsy x = false -> x = Some (str_of x) /\ str_of x <> EmptyString.
Proof.
  unfold falsy. destruct x as [v |]; [| done].
  case_bool_decide; [done |]. by intros _.
Qed.

Lemma resolveRound_length (players : list Player)
    (decisions : gmap string Decision) (roll : RollResult) :
  length (resolveRound players decisions roll) = length players.
Proof. apply length_map. Qed.

(** [resolveAndAdvance] does nothing without a roll; with one it either
    finishes the game or opens the next round. *)
Lemma resolveAndAdvance_cases (now : Z) (s : RoomState) :
  (lastRoll s = None /\ resolveAndAdvance now s = s)
  \/ exists roll h,
       lastRoll s = Some roll
       /\ let ps := resolveRound (players s) (decisions s) roll in
          (exists w,
              w <> EmptyString
              /\ checkWinCondition ps (step s) (maxSteps s) (winThreshold s)
                 = Some w
              /\ resolveAndAdvance now s
                 = set_history h
                     (set_pot 0
                        (set_winnerId (Some w)
                           (set_status FINISHED
                              (set_players (distributePot ps w (pot s)) s)))))
          \/ (truthy (checkWinCondition ps (step s) (maxSteps s)
                        (winThreshold s)) = None
              /\ resolveAndAdvance now s
                 = set_history h
                     (set_lastRoll None
                        (set_decisions ∅
                           (set_phase CAPTAIN_TURN
                              (set_captainIndex
                                 (getNextCaptain (captainIndex s)
                                    (Z.of_nat (length (players s))))
                                 (set_step (step s + 1)
                                    (set_players ps s))))))).
Proof.
  unfold resolveAndAdvance.
  destruct (lastRoll s) as [roll |]; [right | by left].
  destruct (logEvent_history_only "ROUND_RESOLVED"
              (RoundResolvedData roll
                 (decisions (set_players
                               (resolveRound (players s) (decisions s) roll) s)))
              now
              (set_players (resolveRound (players s) (decisions s) roll) s))
    as [h Hh].
  rewrite Hh. cbn zeta.
  cbn [set_history set_players players step maxSteps winThreshold pot
       captainIndex].
  destruct (truthy (checkWinCondition _ _ _ _)) as [w |] eqn:Hwin.
  - apply truthy_nonempty in Hwin as [Hwin Hw]. rewrite Hwin.
    match goal with
    | |- context [logEvent ?t ?d ?n ?x] =>
        destruct (logEvent_history_only t d n x) as [h' Hh']; rewrite Hh'
    end.
    exists roll, h'. split; [reflexivity |]. left. exists w.
    split; [exact Hw |]. split; [exact Hwin | reflexivity].
  - exists roll, h. split; [reflexivity |]. right.
    split; [exact Hwin |].
    cbn [set_step set_history set_players players captainIndex].
    rewrite resolveRound_length. reflexivity.
Qed.

Lemma handleJoin_cases (s : RoomState) (nick credId credSecret : string)
    (now : Z) :
  (handleJoin s nick credId credSecret now).1 = s
  \/ (status s = LOBBY
      /\ Z.of_nat (length (players s)) < maxPlayers s
      /\ 1 <= str_length (trim nick) <= 20
      /\ Forall (fun p => toLowerCase (nickname p) <> toLowerCase (trim nick))
           (players s)
      /\ exists h,
           handleJoin s nick credId credSecret now
           = (set_history h
                (set_hostId
                   (if decide (players s = []) then credId else hostId s)
                   (set_players
                      (players s
                       ++ [mkPlayer credId credSecret (trim nick)
                             STARTING_POINTS false false]) s)),
              jsonResponse (CredentialsBody credId credSecret) 200)).
Proof.
  unfold handleJoin, reject.
  case_bool_decide as Hlobby; cbn [negb]; [| by left].
  destruct (Z.leb_spec (maxPlayers s) (Z.of_nat (length (players s))));
    [by left |].
  case_bool_decide as Hnick; cbn [orb]; [by left |].
  destruct (Z.ltb_spec (str_length (trim nick)) 1); cbn [orb]; [by left |].
  destruct (Z.ltb_spec 20 (str_length (trim nick))); [by left |].
  destruct (existsb _ (players s)) eqn:Htaken; [by left |].
  right. split; [exact Hlobby |]. split; [lia |]. split; [lia |]. split.
  - apply Forall_forall. intros p Hp Heq.
    assert (existsb
              (fun p => bool_decide (toLowerCase (nickname p)
                                     = toLowerCase (trim nick)))
              (players s) = true) as Hex; [| congruence].
    apply existsb_exists. exists p. split; [by apply list_elem_of_In |].
    by apply bool_decide_eq_true_2.
  - cbn zeta.
    match goal with
    | |- context [logEvent ?t ?d ?n ?x] =>
        destruct (logEvent_history_only t d n x) as [h Hh]; rewrite Hh
    end.
    exists h. f_equal.
    cbn [set_players players]. rewrite length_app. cbn [length].
    destruct (players s) as [| p ps]; cbn [length].
    + rewrite decide_True by done. reflexivity.
    + rewrite decide_False by done.
      destruct (Z.eqb_spec (Z.of_nat (S (length ps) + 1)) 1); [lia |].
      reflexivity.
Qed.

Ltac name_logEvent h :=
  match goal with
  | |- context [logEvent ?t ?d ?n ?x] =>
      let Hh := fresh "Hh" in
      destruct (logEvent_history_only t d n x) as [h Hh]; rewrite Hh; clear Hh
  end.

Lemma validatePlayer_id (s : RoomState) (playerId playerSecret : string)
    (i : nat) (player : Player) :
  validatePlayer s playerId playerSecret = Some (i, player) ->
  players s !! i = Some player
  /\ id player = playerId /\ secret player = playerSecret.
Proof.
  unfold validatePlayer. intros H.
  destruct (list_find _ (players s)) as [[j q] |] eqn:Hfind; [| done].
  case_decide as Hsecret; [| done]. injection H as -> ->.
  by apply list_find_Some in Hfind as (? & ? & _).
Qed.

Lemma handleReady_cases (s : RoomState) (playerId playerSecret : option string)
    (now : Z) :
  (handleReady s playerId playerSecret now).1 = s
  \/ (status s = LOBBY
      /\ exists i player h,
           players s !! i = Some player
           /\ id player = str_of playerId
           /\ secret player = str_of playerSecret
           /\ handleReady s playerId playerSecret now
              = (set_history h
                   (set_players
                      (<[i := set_ready (negb (ready player)) player]>
                         (players s)) s),
                 jsonResponse (ReadyBody (negb (ready player))) 200)).
Proof.
  unfold handleReady, reject.
  case_bool_decide as Hlobby; cbn [negb]; [| by left].
  destruct (falsy playerId || falsy playerSecret); [by left |].
  destruct (validatePlayer s _ _) as [[i player] |] eqn:Hv; [| by left].
  apply validatePlayer_id in Hv as (Hi & Hid & Hsec).
  right. split; [exact Hlobby |]. cbn zeta. name_logEvent h.
  exists i, player, h. by repeat split.
Qed.

Lemma handleStart_cases (s : RoomState) (playerId playerSecret : option string)
    (now : Z) :
  (handleStart s playerId playerSecret now).1 = s
  \/ (status s = LOBBY
      /\ str_of playerId = hostId s
      /\ MIN_PLAYERS <= Z.of_nat (length (players s))
      /\ Forall (fun p => ready p = true) (players s)
      /\ exists h,
           handleStart s playerId playerSecret now
           = (set_history h
                (set_decisions ∅
                   (set_captainIndex 0
                      (set_step 1
                         (set_phase CAPTAIN_TURN
                            (set_status PLAYING
                               (set_pot
                                  (stake s * Z.of_nat (length (players s)))
                                  (set_players
                                     (sr_players
                                        (collectStakes (players s) (stake s)))
                                     s))))))),
              jsonResponse SuccessBody 200)).
Proof.
  unfold handleStart, reject.
  case_bool_decide as Hlobby; cbn [negb]; [| by left].
  destruct (falsy playerId || falsy playerSecret); [by left |].
  case_bool_decide as Hhost; cbn [negb]; [| by left].
  destruct (validatePlayer s _ _) as [x |]; [| by left].
  destruct (Z.ltb_spec (Z.of_nat (length (players s))) MIN_PLAYERS);
    [by left |].
  destruct (forallb ready (players s)) eqn:Hready; cbn [negb]; [| by left].
  right. split; [exact Hlobby |]. split; [exact Hhost |]. split; [lia |].
  split.
  - apply Forall_forall. intros p Hp.
    rewrite forallb_forall in Hready. by apply Hready, list_elem_of_In.
  - cbn zeta. name_logEvent h. exists h. reflexivity.
Qed.

Lemma handleCreate_cases (existingState : option RoomState)
    (stake maxPlayers : Z) (roomToken : string) (now : Z) :
  (exists e,
      handleCreate existingState stake maxPlayers roomToken now
      = (existingState, jsonResponse (ErrorBody e) 400))
  \/ (existingState = None
      /\ MIN_STAKE <= stake <= MAX_STAKE
      /\ MIN_PLAYERS <= maxPlayers <= MAX_PLAYERS
      /\ handleCreate existingState stake maxPlayers roomToken now
         = (Some (set_history
                    [mkGameEvent "ROOM_CREATED" now
                       (RoomCreatedData stake maxPlayers)]
                    (createInitialState roomToken stake maxPlayers)),
            jsonResponse (RoomTokenBody roomToken) 200)).
Proof.
  unfold handleCreate. destruct existingState as [s |]; [left; by eexists |].
  destruct (Z.eqb_spec stake 0), (Z.ltb_spec stake MIN_STAKE),
    (Z.ltb_spec MAX_STAKE stake); cbn [orb]; try (left; by eexists).
  destruct (Z.eqb_spec maxPlayers 0), (Z.ltb_spec maxPlayers MIN_PLAYERS),
    (Z.ltb_spec MAX_PLAYERS maxPlayers); cbn [orb]; try (left; by eexists).
  right. split; [done |]. split; [lia |]. split; [lia |]. reflexivity.
Qed.

Lemma handleAction_cases (s : RoomState) (playerId playerSecret : option string)
    (type : ActionType) (randomByte : byte) (now : Z) :
  let r := handleAction s playerId playerSecret type randomByte now in
  r.1 = s
  \/ (type = CAPTAIN_ROLL
      /\ status s = PLAYING /\ phase s = CAPTAIN_TURN
      /\ r.2 = jsonResponse SuccessBody 200
      /\ exists captain h,
           at_index (players s) (captainIndex s) = Some captain
           /\ str_of playerId = id captain
           /\ let s1 := after_roll (id captain)
                          (rollChallenge randomByte now) h s in
              r.1 = s1 \/ r.1 = resolveAndAdvance now s1)
  \/ (exists d,
        type = Decide d
        /\ status s = PLAYING /\ phase s = DECISIONS
        /\ r.2 = jsonResponse SuccessBody 200
        /\ exists captain h i player,
             at_index (players s) (captainIndex s) = Some captain
             /\ str_of playerId <> id captain
             /\ decisions s !! str_of playerId = None
             /\ players s !! i = Some player
             /\ id player = str_of playerId
             /\ let s1 := after_decision (str_of playerId) d h s in
                r.1 = s1 \/ r.1 = resolveAndAdvance now s1).
Proof.
  intros r. subst r. unfold handleAction, reject.
  case_bool_decide as Hplaying; cbn [negb]; [| by left].
  destruct (falsy playerId || falsy playerSecret); [by left |].
  destruct (validatePlayer s _ _) as [[i player] |] eqn:Hv; [| by left].
  apply validatePlayer_id in Hv as (Hi & Hid & _).
  destruct type as [| d | other]; [| | by left].
  - case_bool_decide as Hphase; cbn [negb]; [| by left].
    destruct (at_index (players s) (captainIndex s)) as [captain |] eqn:Hcap;
      [| by left].
    case_bool_decide as Hcaptain; cbn [negb]; [| by left].
    right. left. split; [done |]. split; [done |]. split; [done |].
    cbn zeta. name_logEvent h.
    split; [by case_match |].
    exists captain, h. split; [done |]. split; [done |].
    case_match; cbn [fst]; [by right | by left].
  - case_bool_decide as Hphase; cbn [negb]; [| by left].
    destruct (at_index (players s) (captainIndex s)) as [captain |] eqn:Hcap;
      [| by left].
    case_bool_decide as Hcaptain; [by left |].
    case_bool_decide as Hdecided; [by left |].
    right. right. exists d. split; [done |]. split; [done |]. split; [done |].
    cbn zeta. name_logEvent h.
    split; [by case_match |].
    exists captain, h, i, player.
    split; [done |]. split; [done |]. split.
    { destruct (decisions s !! str_of playerId) eqn:Hd; [| done].
      exfalso. apply Hdecided. by eexists. }
    split; [done |]. split; [done |].
    case_match; cbn [fst]; [by right | by left].
Qed.

Lemma handleWebSocket_cases (room : GameRoom) (server : nat)
    (playerId playerSecret : option string) :
  handleWebSocket room server playerId playerSecret = (room, SwitchingProtocols)
  \/ exists s i player,
       roomState room = Some s
       /\ players s !! i = Some player
       /\ id player = str_of playerId
       /\ secret player = str_of playerSecret
       /\ str_of playerId <> EmptyString
       /\ handleWebSocket room server playerId playerSecret
          = ({| roomState :=
                  Some (set_players
                          (<[i := set_connected true player]> (players s)) s);
                sessions := <[ server := str_of playerId ]> (sessions room) |},
             SwitchingProtocols).
Proof.
  unfold handleWebSocket.
  destruct (roomState room) as [s |] eqn:Hs; [| by left].
  destruct (falsy playerId) eqn:Hid; cbn [orb]; [by left |].
  destruct (falsy playerSecret); [by left |].
  destruct (validatePlayer s _ _) as [[i player] |] eqn:Hv; [| by left].
  apply validatePlayer_id in Hv as (Hi & Hpid & Hsec).
  apply falsy_false in Hid as [_ Hne].
  right. exists s, i, player. by repeat split.
Qed.

Lemma onClose_cases (room : GameRoom) (server : nat) :
  roomState (onClose room server) = roomState room
  \/ exists s i player pid,
       roomState room = Some s
       /\ sessions room !! server = Some pid
       /\ players s !! i = Some player
       /\ id player = pid
       /\ roomState (onClose room server)
          = Some (set_players
                    (<[i := set_connected false player]> (players s)) s).
Proof.
  unfold onClose. cbn [roomState].
  destruct (truthy (sessions room !! server)) as [pid |] eqn:Hpid; [| by left].
  apply truthy_nonempty in Hpid as [Hpid _].
  destruct (roomState room) as [s |] eqn:Hs; [| by left].
  destruct (list_find _ (players s)) as [[i player] |] eqn:Hfind; [| by left].
  apply list_find_Some in Hfind as (Hi & Hid & _).
  right. exists s, i, player, pid. by repeat split.
Qed.

Lemma room_eta (room : GameRoom) (s : RoomState) :
  roomState room = Some s ->
  {| roomState := Some s; sessions := sessions room |} = room.
Proof. destruct room. cbn. by intros ->. Qed.

Lemma with_room_Some (room : GameRoom) (s : RoomState)
    (handler : RoomState -> RoomState * Response) :
  roomState room = Some s ->
  with_room room handler
  = ({| roomState := Some (handler s).1; sessions := sessions room |},
     (handler s).2).
Proof. intros Hs. unfold with_room. rewrite Hs. by destruct (handler s). Qed.

Lemma with_room_None (room : GameRoom)
    (handler : RoomState -> RoomState * Response) :
  roomState room = None ->
  with_room room handler
  = (room, jsonResponse (ErrorBody "Room not found") 404).
Proof. intros Hs. unfold with_room. by rewrite Hs. Qed.

(** X10. A request that is answered with an error (whatever the status),
    or whose handler throws, leaves the actor exactly as it was: room
    state and sessions. *)
Theorem refused_request_changes_nothing (room : GameRoom) (request : Request)
    (now : Z) :
  refused (fetch room request now).2 -> (fetch room request now).1 = room.
Proof.
  assert (Hsuccess : forall body,
             (forall e, body <> ErrorBody e) -> ~ refused (jsonResponse body 200)).
  { intros body Hb [(e & st & [= -> _]) | [=]]. by eapply Hb. }
  destruct request as [stake maxPlayers token | nick cid csec | pid psec
                      | pid psec | pid psec type b | server pid psec];
    cbn [fetch].
  - destruct (handleCreate_cases (roomState room) stake maxPlayers token now)
      as [[e ->] | (_ & _ & _ & ->)]; cbn.
    + intros _. by destruct room.
    + intros H. by apply Hsuccess in H.
  - destruct (roomState room) as [s |] eqn:Hs;
      [| by rewrite with_room_None].
    rewrite (with_room_Some _ s) by done. cbn [fst snd].
    destruct (handleJoin_cases s nick cid csec now)
      as [-> | (_ & _ & _ & _ & h & ->)]; cbn [fst snd].
    + intros _. by apply room_eta.
    + intros H. by apply Hsuccess in H.
  - destruct (roomState room) as [s |] eqn:Hs;
      [| by rewrite with_room_None].
    rewrite (with_room_Some _ s) by done. cbn [fst snd].
    destruct (handleReady_cases s pid psec now)
      as [-> | (_ & i & p & h & _ & _ & _ & ->)]; cbn [fst snd].
    + intros _. by apply room_eta.
    + intros H. by apply Hsuccess in H.
  - destruct (roomState room) as [s |] eqn:Hs;
      [| by rewrite with_room_None].
    rewrite (with_room_Some _ s) by done. cbn [fst snd].
    destruct (handleStart_cases s pid psec now)
      as [-> | (_ & _ & _ & _ & h & ->)]; cbn [fst snd].
    + intros _. by apply room_eta.
    + intros H. by apply Hsuccess in H.
  - destruct (roomState room) as [s |] eqn:Hs;
      [| by rewrite with_room_None].
    rewrite (with_room_Some _ s) by done. cbn [fst snd].
    destruct (handleAction_cases s pid psec type b now)
      as [-> | [(_ & _ & _ & -> & _) | (d & _ & _ & _ & -> & _)]].
    + intros _. by apply room_eta.
    + intros H. by apply Hsuccess in H.
    + intros H. by apply Hsuccess in H.
  - destruct (handleWebSocket_cases room server pid psec)
      as [-> | (s & i & p & _ & _ & _ & _ & _ & ->)]; cbn [fst snd].
    + done.
    + intros [(e & st & [=]) | [=]].
Qed.

(** Bob's attempt to roll in Alice's turn is refused and changes nothing. *)
Lemma refused_request_changes_nothing_witness :
  refused (fetch scenario1_start.1
             (Action (Some bob_id) (Some bob_secret) CAPTAIN_ROLL "c"%byte) 7).2
  /\ (fetch scenario1_start.1
        (Action (Some bob_id) (Some bob_secret) CAPTAIN_ROLL "c"%byte) 7).1
     = scenario1_start.1.
Proof.
  assert (H : refused
                (fetch scenario1_start.1
                   (Action (Some bob_id) (Some bob_secret) CAPTAIN_ROLL
                      "c"%byte) 7).2).
  { left. exists "Only captain can roll", 403. by vm_compute. }
  split; [exact H |].
  exact (refused_request_changes_nothing _ _ _ H).
Defined.

Lemma map_insert_same {A B : Type} (f : A -> B) (l : list A) (i : nat)
    (p q : A) :
  l !! i = Some p -> f q = f p -> map f (<[i := q]> l) = map f l.
Proof.
  intros Hi Hf. change (f <$> <[i := q]> l = f <$> l).
  rewrite list_fmap_insert, Hf. apply list_insert_id.
  by rewrite list_lookup_fmap, Hi.
Qed.

Lemma map_Forall2_eq {A B : Type} (f : A -> B) (R : A -> A -> Prop)
    (l l' : list A) :
  (forall x y, R x y -> f y = f x) ->
  Forall2 R l l' -> map f l' = map f l.
Proof.
  intros HR. induction 1 as [| x y l l' Hxy _ IH]; [reflexivity |].
  cbn. by rewrite (HR x y Hxy), IH.
Qed.

Lemma same_identity_identity_of (p q : Player) :
  same_identity p q -> identity_of q = identity_of p.
Proof. intros (H1 & H2 & H3 & _). unfold identity_of. congruence. Qed.

Lemma fetch_finished (room : GameRoom) (s : RoomState) (request : Request)
    (now : Z) :
  roomState room = Some s -> status s = FINISHED ->
  (forall server pid psec, request <> WebSocket server pid psec) ->
  exists e, fetch room request now = (room, jsonResponse (ErrorBody e) 400).
Proof.
  intros Hs Hfin Hws.
  destruct request as [stake maxPlayers token | nick cid csec | pid psec
                      | pid psec | pid psec type b | server pid psec];
    cbn [fetch]; [| | | | | by destruct (Hws server pid psec)].
  - rewrite Hs. cbn. eexists. by destruct room; cbn in *; subst.
  - rewrite (with_room_Some _ s) by done.
    unfold handleJoin, reject. rewrite Hfin. cbn.
    eexists. by rewrite room_eta.
  - rewrite (with_room_Some _ s) by done.
    unfold handleReady, reject. rewrite Hfin. cbn.
    eexists. by rewrite room_eta.
  - rewrite (with_room_Some _ s) by done.
    unfold handleStart, reject. rewrite Hfin. cbn.
    eexists. by rewrite room_eta.
  - rewrite (with_room_Some _ s) by done.
    unfold handleAction, reject. rewrite Hfin. cbn.
    eexists. by rewrite room_eta.
Qed.

Lemma outcome_replace_player (s : RoomState) (i : nat) (p q : Player) :
  players s !! i = Some p -> id q = id p -> points q = points p ->
  outcome (set_players (<[i := q]> (players s)) s) = outcome s.
Proof.
  intros Hi Hid Hpts. unfold outcome. cbn. f_equal. f_equal.
  apply (map_insert_same _ _ _ p); [done | congruence].
Qed.

Lemma socket_or_not (request : Request) :
  (exists server pid psec, request = WebSocket server pid psec)
  \/ (forall server pid psec, request <> WebSocket server pid psec).
Proof. destruct request; [right; discriminate .. | left; eauto]. Qed.

Lemma room_step_finished (room room' : GameRoom) (s : RoomState) :
  room_step room room' ->
  roomState room = Some s -> status s = FINISHED ->
  exists s', roomState room' = Some s' /\ outcome s' = outcome s.
Proof.
  intros Hstep. revert s.
  destruct Hstep as [r request now | r server]; intros s Hs Hfin.
  - destruct (socket_or_not request) as [(server & pid & psec & ->) | Hws].
    + cbn [fetch].
      destruct (handleWebSocket_cases r server pid psec)
        as [-> | (s0 & i & p & Hs0 & Hi & _ & _ & _ & ->)];
        cbn [fst roomState].
      * by exists s.
      * rewrite Hs in Hs0. injection Hs0 as <-.
        eexists. split; [reflexivity |].
        by apply (outcome_replace_player _ _ p).
    + destruct (fetch_finished r s request now Hs Hfin Hws) as [e ->].
      by exists s.
  - destruct (onClose_cases r server)
      as [-> | (s0 & i & p & pid & Hs0 & _ & Hi & _ & ->)].
    + by exists s.
    + rewrite Hs in Hs0. injection Hs0 as <-.
      eexists. split; [reflexivity |]. by apply (outcome_replace_player _ _ p).
Qed.

(** X11. A finished game is final: every request but a socket upgrade is
    refused with status 400 and changes nothing, and whatever happens
    later (sockets opening and closing included) the status, the winner,
    the pot, every player's id and points, and the event log stay as they
    were. *)
Theorem finished_is_final (room : GameRoom) (s : RoomState) :
  roomState room = Some s ->
  status s = FINISHED ->
  (forall request now,
      (forall server pid psec, request <> WebSocket server pid psec) ->
      exists e,
        fetch room request now = (room, jsonResponse (ErrorBody e) 400))
  /\ (forall room',
        rtc room_step room room' ->
        exists s', roomState room' = Some s' /\ outcome s' = outcome s).
Proof.
  intros Hs Hfin. split.
  - intros request now Hws. by apply (fetch_finished room s).
  - intros room' Hsteps. revert s Hs Hfin.
    induction Hsteps as [room | room mid room' Hstep _ IH]; intros s Hs Hfin.
    + by exists s.
    + destruct (room_step_finished _ _ s Hstep Hs Hfin) as (s1 & Hs1 & Ho1).
      assert (Hfin1 : status s1 = FINISHED).
      { unfold outcome in Ho1. injection Ho1 as Hst _. congruence. }
      destruct (IH s1 Hs1 Hfin1) as (s' & Hs' & Ho').
      exists s'. split; [exact Hs' | congruence].
Qed.

(** After the ten rounds, Bob's roll is refused and the room stands. *)
Lemma finished_is_final_witness :
  roomState finished_room = Some (state_of finished_room)
  /\ status (state_of finished_room) = FINISHED
  /\ exists e,
       fetch finished_room
         (Action (Some bob_id) (Some bob_secret) CAPTAIN_ROLL "c"%byte) 200
       = (finished_room, jsonResponse (ErrorBody e) 400).
Proof.
  assert (Hs : roomState finished_room = Some (state_of finished_room))
    by (vm_compute; reflexivity).
  assert (Hfin : status (state_of finished_room) = FINISHED)
    by (vm_compute; reflexivity).
  split; [exact Hs |]. split; [exact Hfin |].
  apply (proj1 (finished_is_final finished_room _ Hs Hfin)). discriminate.
Defined.

(** ** How a room evolves *)

Lemma evolves_refl (s : RoomState) : evolves s s.
Proof. unfold evolves. repeat split; try done; lia. Qed.

Lemma status_rank_lobby (st : Status) : st <> LOBBY <-> 1 <= status_rank st.
Proof. destruct st; cbn; split; (done || lia). Qed.

Lemma evolves_trans (s1 s2 s3 : RoomState) :
  evolves s1 s2 -> evolves s2 s3 -> evolves s1 s3.
Proof.
  intros (A1 & A2 & A3 & A4 & A5 & A6 & A7 & A8 & A9)
         (B1 & B2 & B3 & B4 & B5 & B6 & B7 & B8 & B9).
  unfold evolves. split_and!; try congruence.
  - lia.
  - by etrans.
  - intros H. specialize (A8 H).
    assert (status s2 <> LOBBY) as H2.
    { apply status_rank_lobby. apply status_rank_lobby in H. lia. }
    specialize (B8 H2). congruence.
  - intros H. specialize (A9 H).
    assert (players s2 <> []) as H2.
    { intros Hnil. destruct A7 as [k Hk]. rewrite Hnil in Hk.
      destruct (players s1); [done | discriminate]. }
    specialize (B9 H2). congruence.
Qed.

(** A state whose players kept their identities, in a status that is not
    earlier, with the fixed fields and the host untouched. *)
Lemma evolves_same_identities (s s' : RoomState) :
  roomToken s' = roomToken s -> stake s' = stake s ->
  maxPlayers s' = maxPlayers s -> maxSteps s' = maxSteps s ->
  winThreshold s' = winThreshold s -> hostId s' = hostId s ->
  status_rank (status s) <= status_rank (status s') ->
  map identity_of (players s') = map identity_of (players s) ->
  evolves s s'.
Proof.
  intros ? ? ? ? ? ? ? Hids. unfold evolves. split_and!; try done.
  - by rewrite Hids.
  - intros _. rewrite <- (length_map identity_of (players s')),
      <- (length_map identity_of (players s)). congruence.
Qed.

Lemma resolveRound_identities (players : list Player)
    (decisions : gmap string Decision) (roll : RollResult) :
  map identity_of (resolveRound players decisions roll)
  = map identity_of players.
Proof.
  apply (map_Forall2_eq _ same_identity);
    [apply same_identity_identity_of | apply resolveRound_identity].
Qed.

Lemma distributePot_identities (players : list Player) (winner : string)
    (pot : Z) :
  map identity_of (distributePot players winner pot) = map identity_of players.
Proof.
  apply (map_Forall2_eq _ same_identity);
    [apply same_identity_identity_of | apply distributePot_identity].
Qed.

Lemma collectStakes_identities (players : list Player) (stake : Z) :
  map identity_of (sr_players (collectStakes players stake))
  = map identity_of players.
Proof.
  apply (map_Forall2_eq _
           (fun p q => points q = points p - stake /\ same_identity p q));
    [| apply collectStakes_players].
  intros p q [_ H]. by apply same_identity_identity_of.
Qed.

Lemma evolves_resolveAndAdvance (now : Z) (s : RoomState) :
  evolves s (resolveAndAdvance now s).
Proof.
  destruct (resolveAndAdvance_cases now s)
    as [[_ ->] | (roll & h & _ & [(w & _ & _ & ->) | (_ & ->)])].
  - apply evolves_refl.
  - apply evolves_same_identities; try reflexivity.
    + cbn. destruct (status s); cbn; lia.
    + cbn. by rewrite distributePot_identities, resolveRound_identities.
  - apply evolves_same_identities; try reflexivity.
    cbn. by rewrite resolveRound_identities.
Qed.

Lemma evolves_handleJoin (s : RoomState) (nick credId credSecret : string)
    (now : Z) :
  evolves s (handleJoin s nick credId credSecret now).1.
Proof.
  destruct (handleJoin_cases s nick credId credSecret now)
    as [-> | (Hlobby & _ & _ & _ & h & ->)]; [apply evolves_refl |].
  cbn [fst]. unfold evolves. cbn. split_and!; try done.
  - rewrite map_app. by apply prefix_app_r.
  - intros Hne. by rewrite decide_False.
Qed.

Lemma evolves_handleReady (s : RoomState)
    (playerId playerSecret : option string) (now : Z) :
  evolves s (handleReady s playerId playerSecret now).1.
Proof.
  destruct (handleReady_cases s playerId playerSecret now)
    as [-> | (_ & i & p & h & Hi & _ & _ & ->)]; [apply evolves_refl |].
  cbn [fst]. apply evolves_same_identities; try reflexivity.
  cbn. by apply (map_insert_same _ _ _ p).
Qed.

Lemma evolves_handleStart (s : RoomState)
    (playerId playerSecret : option string) (now : Z) :
  evolves s (handleStart s playerId playerSecret now).1.
Proof.
  destruct (handleStart_cases s playerId playerSecret now)
    as [-> | (Hlobby & _ & _ & _ & h & ->)]; [apply evolves_refl |].
  cbn [fst]. apply evolves_same_identities; try reflexivity.
  - cbn. rewrite Hlobby. cbn. lia.
  - cbn [set_history set_decisions set_captainIndex set_step set_phase
         set_status set_pot set_players players].
    apply collectStakes_identities.
Qed.

Lemma evolves_handleAction (s : RoomState)
    (playerId playerSecret : option string) (type : ActionType)
    (randomByte : byte) (now : Z) :
  evolves s (handleAction s playerId playerSecret type randomByte now).1.
Proof.
  destruct (handleAction_cases s playerId playerSecret type randomByte now)
    as [-> | [(_ & _ & _ & _ & captain & h & _ & _ & [-> | ->])
             | (d & _ & _ & _ & _ & captain & h & i & p & _ & _ & _ & _ & _
                & [-> | ->])]].
  - apply evolves_refl.
  - apply evolves_same_identities; reflexivity.
  - eapply evolves_trans; [| apply evolves_resolveAndAdvance].
    apply evolves_same_identities; reflexivity.
  - apply evolves_same_identities; reflexivity.
  - eapply evolves_trans; [| apply evolves_resolveAndAdvance].
    apply evolves_same_identities; reflexivity.
Qed.

Lemma evolves_replace_player (s : RoomState) (i : nat) (p q : Player) :
  players s !! i = Some p -> identity_of q = identity_of p ->
  evolves s (set_players (<[i := q]> (players s)) s).
Proof.
  intros Hi Hq. apply evolves_same_identities; try reflexivity.
  cbn. by apply (map_insert_same _ _ _ p).
Qed.

Lemma room_step_evolves (room room' : GameRoom) (s : RoomState) :
  room_step room room' ->
  roomState room = Some s ->
  exists s', roomState room' = Some s' /\ evolves s s'.
Proof.
  intros Hstep. revert s.
  destruct Hstep as [r request now | r server]; intros s Hs.
  - destruct request as [stake maxPlayers token | nick cid csec | pid psec
                        | pid psec | pid psec type b | server pid psec];
      cbn [fetch].
    + rewrite Hs. cbn. exists s. split; [done | apply evolves_refl].
    + rewrite (with_room_Some _ s) by done. cbn.
      eexists. split; [reflexivity | apply evolves_handleJoin].
    + rewrite (with_room_Some _ s) by done. cbn.
      eexists. split; [reflexivity | apply evolves_handleReady].
    + rewrite (with_room_Some _ s) by done. cbn.
      eexists. split; [reflexivity | apply evolves_handleStart].
    + rewrite (with_room_Some _ s) by done. cbn.
      eexists. split; [reflexivity | apply evolves_handleAction].
    + destruct (handleWebSocket_cases r server pid psec)
        as [-> | (s0 & i & p & Hs0 & Hi & _ & _ & _ & ->)];
        cbn [fst roomState].
      * exists s. split; [done | apply evolves_refl].
      * rewrite Hs in Hs0. injection Hs0 as <-.
        eexists. split; [reflexivity |].
        by apply (evolves_replace_player _ _ p).
  - destruct (onClose_cases r server)
      as [-> | (s0 & i & p & pid & Hs0 & _ & Hi & _ & ->)].
    + exists s. split; [done | apply evolves_refl].
    + rewrite Hs in Hs0. injection Hs0 as <-.
      eexists. split; [reflexivity |].
      by apply (evolves_replace_player _ _ p).
Qed.

(** X12. Once a room exists it exists for good, and between any of its
    states and any later one: token, stake, player limit, step limit and
    win threshold are the same; the status has not gone back; the players
    of the earlier state are still there, in their seats, with the same
    id, secret and nickname, new ones only added behind them and none
    added once the lobby is left; and the host, once there is a player,
    stays the host. *)
Theorem room_evolves (room room' : GameRoom) (s : RoomState) :
  rtc room_step room room' ->
  roomState room = Some s ->
  exists s', roomState room' = Some s' /\ evolves s s'.
Proof.
  intros Hsteps. revert s.
  induction Hsteps as [room | room mid room' Hstep _ IH]; intros s Hs.
  - exists s. split; [done | apply evolves_refl].
  - destruct (room_step_evolves _ _ s Hstep Hs) as (s1 & Hs1 & He1).
    destruct (IH s1 Hs1) as (s' & Hs' & He').
    exists s'. split; [exact Hs' | by eapply evolves_trans].
Qed.

(** From the lobby to the end of the ten rounds. *)
Lemma serve_steps (room : GameRoom) (requests : list (Request * Z)) :
  rtc room_step room (serve room requests).
Proof.
  revert room. induction requests as [| [request now] rest IH]; intros room.
  - apply rtc_refl.
  - cbn. eapply rtc_l; [apply step_fetch | apply IH].
Qed.

Lemma room_evolves_witness :
  roomState scenario1_lobby = Some (state_of scenario1_lobby)
  /\ exists s',
       roomState (serve scenario1_lobby ((Start alice.1 alice.2, 6) :: ten_rounds))
       = Some s'
       /\ evolves (state_of scenario1_lobby) s'.
Proof.
  assert (Hs : roomState scenario1_lobby = Some (state_of scenario1_lobby))
    by (vm_compute; reflexivity).
  split; [exact Hs |].
  exact (room_evolves scenario1_lobby _ _ (serve_steps _ _) Hs).
Defined.

(** ** The shape of the reachable room states *)

Lemma checkWinCondition_in (players : list Player)
    (step maxSteps winThreshold : Z) (w : string) :
  checkWinCondition players step maxSteps winThreshold = Some w ->
  w ∈ map id players.
Proof.
  assert (Hin : forall p, p ∈ players -> id p ∈ map id players).
  { intros p Hp. apply list_elem_of_fmap. by exists p. }
  unfold checkWinCondition.
  destruct (List.find _ players) as [t |] eqn:Hfind.
  - intros [= <-]. apply find_some in Hfind as [Ht _].
    by apply Hin, list_elem_of_In.
  - destruct (maxSteps <=? step).
    + destruct (sort _ players !! 0%nat) as [p |] eqn:Hhd; [| done].
      intros [= <-]. apply Hin.
      apply list_elem_of_lookup_2 in Hhd. by rewrite sort_perm in Hhd.
    + destruct (_ =? 1); [| done].
      destruct (List.filter _ players !! 0%nat) as [p |] eqn:Hhd; [| done].
      intros [= <-]. apply Hin.
      apply list_elem_of_lookup_2, list_elem_of_In, filter_In in Hhd.
      apply list_elem_of_In. tauto.
Qed.

Lemma checkWinCondition_step_limit (players : list Player)
    (step maxSteps winThreshold : Z) :
  players <> [] -> maxSteps <= step ->
  exists w, checkWinCondition players step maxSteps winThreshold = Some w.
Proof.
  intros Hne Hstep. unfold checkWinCondition.
  destruct (List.find _ players); [by eexists |].
  destruct (Z.leb_spec maxSteps step); [| lia].
  pose proof (Permutation_length
                (sort_perm (fun a b => points b - points a) players)) as Hlen.
  destruct (sort _ players) as [| p sorted]; [| by eexists].
  destruct players; [done | discriminate].
Qed.

Lemma rollChallenge_valid (b : byte) (now : Z) :
  1 <= value (rollChallenge b now) <= 100
  /\ success (rollChallenge b now)
     = (SUCCESS_THRESHOLD <=? value (rollChallenge b now)).
Proof.
  split; [| reflexivity]. rewrite rollChallenge_value.
  pose proof (Z.mod_pos_bound (byte_value b) 100). lia.
Qed.

Lemma resolveRound_upper (players : list Player)
    (decisions : gmap string Decision) (roll : RollResult) (bound : Z) :
  0 <= bound ->
  Forall (fun x => x <= bound) (map points players) ->
  Forall (fun x => x <= bound + SUCCESS_REWARD)
    (map points (resolveRound players decisions roll)).
Proof.
  intros Hb. induction players as [| p ps IH]; [constructor |].
  cbn [map]. intros Hl. apply Forall_cons_1 in Hl as [Hp Hps].
  rewrite resolveRound_cons. cbn [map]. constructor; [| by apply IH].
  cbn [resolveRound map hd]. unfold SUCCESS_REWARD, FAILURE_PENALTY.
  destruct (decisions !! id p) as [[] |]; [| lia | lia].
  destruct (success roll); cbn; lia.
Qed.

Lemma identities_maps (l l' : list Player) :
  map identity_of l' = map identity_of l ->
  map id l' = map id l /\ map nickname l' = map nickname l
  /\ length l' = length l.
Proof.
  intros H. split_and!.
  - change (map id) with (map (fun p => (identity_of p).1.1)).
    rewrite <- !(map_map identity_of (fun t => t.1.1)). by rewrite H.
  - change (map nickname) with (map (fun p => (identity_of p).2)).
    rewrite <- !(map_map identity_of (fun t => t.2)). by rewrite H.
  - rewrite <- (length_map identity_of l'), <- (length_map identity_of l).
    by rewrite H.
Qed.

Ltac config_lia :=
  unfold MIN_PLAYERS, MAX_PLAYERS, MIN_STAKE, MAX_STAKE, MAX_STEPS,
    WIN_THRESHOLD, STARTING_POINTS, SUCCESS_REWARD, FAILURE_PENALTY in *;
  lia.

(** The shape speaks of the players through their number, ids, nicknames
    and points only. *)
Lemma room_shape_players (s : RoomState) (ps : list Player) :
  map id ps = map id (players s) ->
  map nickname ps = map nickname (players s) ->
  map points ps = map points (players s) ->
  room_shape s -> room_shape (set_players ps s).
Proof.
  intros Hid Hnick Hpts.
  assert (Hlen : length ps = length (players s)).
  { by rewrite <- (length_map id ps), Hid, length_map. }
  unfold room_shape, playing_shape, finished_shape.
  cbn [set_players players maxSteps winThreshold stake maxPlayers hostId
       decisions lastRoll phase status step pot captainIndex winnerId].
  by rewrite Hid, Hnick, Hpts, Hlen.
Qed.

Lemma room_shape_replace_player (s : RoomState) (i : nat) (p q : Player) :
  players s !! i = Some p ->
  identity_of q = identity_of p -> points q = points p ->
  room_shape s -> room_shape (set_players (<[i := q]> (players s)) s).
Proof.
  intros Hi Hq Hpts. unfold identity_of in Hq. injection Hq as Hid _ Hnick.
  apply room_shape_players; by apply (map_insert_same _ _ _ p).
Qed.

Lemma room_shape_set_history (h : list GameEvent) (s : RoomState) :
  room_shape s -> room_shape (set_history h s).
Proof. done. Qed.

Lemma room_shape_create (roomToken : string) (stake maxPlayers : Z) :
  MIN_STAKE <= stake <= MAX_STAKE ->
  MIN_PLAYERS <= maxPlayers <= MAX_PLAYERS ->
  room_shape (createInitialState roomToken stake maxPlayers).
Proof.
  intros Hstake Hmax. unfold room_shape. cbn.
  split_and!; try done; try config_lia.
  - constructor.
  - intros k [x Hx]. by rewrite lookup_empty in Hx.
Qed.

Lemma room_shape_join (s : RoomState) (credId credSecret nick : string) :
  status s = LOBBY ->
  Z.of_nat (length (players s)) < maxPlayers s ->
  1 <= str_length (trim nick) <= 20 ->
  Forall (fun p => toLowerCase (nickname p) <> toLowerCase (trim nick))
    (players s) ->
  room_shape s ->
  room_shape
    (set_hostId (if decide (players s = []) then credId else hostId s)
       (set_players
          (players s
           ++ [mkPlayer credId credSecret (trim nick) STARTING_POINTS
                 false false]) s)).
Proof.
  intros Hlobby Hroom Hlen Hfree
    (H1 & H2 & H3 & H4 & H5 & H6 & H7 & H8 & H9 & H10 & H11).
  unfold room_shape.
  cbn [set_hostId set_players players maxSteps winThreshold stake maxPlayers
       hostId decisions lastRoll phase status step pot captainIndex winnerId].
  rewrite !map_app, length_app. cbn [map length].
  split_and!; try done; try config_lia.
  - destruct (players s) as [| p ps]; cbn in *; [done |].
    by rewrite decide_False.
  - apply NoDup_app. split_and!; [done | | apply NoDup_singleton].
    intros x Hx Hx'. apply list_elem_of_singleton in Hx'. subst x.
    apply list_elem_of_fmap in Hx as (n & Hn & Hx).
    apply list_elem_of_fmap in Hx as (p & -> & Hp).
    rewrite Forall_forall in Hfree. by apply (Hfree p Hp).
  - apply Forall_app. split; [done |]. by apply Forall_singleton.
  - intros k Hk. apply elem_of_app. left. by apply H8.
  - by rewrite Hlobby in *.
Qed.

Ltac shape_cbn :=
  unfold room_shape, playing_shape, finished_shape, after_roll,
    after_decision;
  cbn [set_history set_lastRoll set_decisions set_phase set_captainIndex
       set_step set_pot set_winnerId set_status set_players set_hostId
       players maxSteps winThreshold stake maxPlayers hostId decisions
       lastRoll phase status step pot captainIndex winnerId history
       roomToken].

Lemma room_shape_start (s : RoomState) :
  status s = LOBBY ->
  MIN_PLAYERS <= Z.of_nat (length (players s)) ->
  room_inv s -> room_shape s ->
  room_shape
    (set_decisions ∅
       (set_captainIndex 0
          (set_step 1
             (set_phase CAPTAIN_TURN
                (set_status PLAYING
                   (set_pot (stake s * Z.of_nat (length (players s)))
                      (set_players
                         (sr_players (collectStakes (players s) (stake s)))
                         s))))))).
Proof.
  intros Hlobby Hn (_ & _ & Hpts)
    (H1 & H2 & H3 & H4 & H5 & H6 & H7 & H8 & H9 & H10 & H11).
  rewrite Hlobby in Hpts, H11. destruct H11 as (Hphase & _).
  destruct (identities_maps _ _ (collectStakes_identities (players s) (stake s)))
    as (Hid & Hnick & Hlen).
  shape_cbn. rewrite Hid, Hnick, Hlen.
  split_and!; try done; try config_lia.
  - intros k [x Hx]. by rewrite lookup_empty in Hx.
  - rewrite Hphase in H10. split; [| done].
    intros Hsome. by apply H10 in Hsome.
  - apply Forall_map. cbn [collectStakes sr_players]. apply Forall_map.
    eapply Forall_impl; [exact Hpts |]. cbn. intros p ->. config_lia.
  - by left.
Qed.

Lemma at_index_id (l : list Player) (i : Z) (p : Player) :
  at_index l i = Some p ->
  map id l !! Z.to_nat i = Some (id p) /\ p ∈ l.
Proof.
  unfold at_index. destruct (i <? 0); [done |]. intros Hi. split.
  - change (map id l) with (id <$> l). by rewrite list_lookup_fmap, Hi.
  - by eapply list_elem_of_lookup_2.
Qed.

Lemma elem_of_map_id (l : list Player) (p : Player) :
  p ∈ l -> id p ∈ map id l.
Proof. intros Hp. apply list_elem_of_fmap. by exists p. Qed.

Lemma room_shape_after_roll (s : RoomState) (captain : Player)
    (randomByte : byte) (now : Z) (h : list GameEvent) :
  status s = PLAYING -> phase s = CAPTAIN_TURN ->
  at_index (players s) (captainIndex s) = Some captain ->
  room_shape s ->
  room_shape (after_roll (id captain) (rollChallenge randomByte now) h s).
Proof.
  intros Hplaying Hphase Hcap
    (H1 & H2 & H3 & H4 & H5 & H6 & H7 & H8 & H9 & H10 & H11).
  rewrite Hplaying in H11.
  destruct H11 as (P1 & P2 & P3 & P4 & P5 & P6 & P7).
  apply at_index_id in Hcap as [Hcid Hin].
  shape_cbn. rewrite Hplaying.
  split_and!; try done; try config_lia.
  - intros k [x Hx]. apply lookup_singleton_Some in Hx as [<- _].
    by apply elem_of_map_id.
  - intros r [= <-]. apply rollChallenge_valid.
  - right. split; [done |]. exists (id captain). split; [done |].
    apply lookup_singleton_eq.
Qed.

Lemma room_shape_after_decision (s : RoomState) (captain player : Player)
    (d : Decision) (h : list GameEvent) :
  status s = PLAYING -> phase s = DECISIONS ->
  at_index (players s) (captainIndex s) = Some captain ->
  player ∈ players s -> id player <> id captain ->
  room_shape s ->
  room_shape (after_decision (id player) d h s).
Proof.
  intros Hplaying Hphase Hcap Hin Hne
    (H1 & H2 & H3 & H4 & H5 & H6 & H7 & H8 & H9 & H10 & H11).
  rewrite Hplaying in H11.
  destruct H11 as (P1 & P2 & P3 & P4 & P5 & P6 & P7).
  apply at_index_id in Hcap as [Hcid _].
  shape_cbn. rewrite Hplaying.
  split_and!; try done; try config_lia.
  - intros k Hk. destruct (decide (k = id player)) as [-> | Hk'].
    + by apply elem_of_map_id.
    + rewrite lookup_insert_ne in Hk by done. by apply H8.
  - destruct P7 as [[Hturn _] | (_ & cid & Hc & Hstay)]; [congruence |].
    right. split; [done |]. exists cid. split; [done |].
    rewrite lookup_insert_ne; [done |]. congruence.
Qed.

Lemma truthy_None_Some (w : string) :
  truthy (Some w) = None -> w = EmptyString.
Proof. unfold truthy, falsy. by case_bool_decide. Qed.

Lemma room_shape_resolveAndAdvance (now : Z) (s : RoomState) :
  status s = PLAYING -> phase s = DECISIONS ->
  room_shape s -> room_shape (resolveAndAdvance now s).
Proof.
  intros Hplaying Hphase Hshape.
  destruct (resolveAndAdvance_cases now s)
    as [[_ ->] | (roll & h & Hroll & [(w & Hw & Hwin & ->) | (Hwin & ->)])];
    [done | |].
  - destruct Hshape as (H1 & H2 & H3 & H4 & H5 & H6 & H7 & H8 & H9 & H10 & H11).
    rewrite Hplaying in H11.
    destruct H11 as (P1 & P2 & P3 & P4 & P5 & P6 & P7).
    destruct (identities_maps _ _
                (resolveRound_identities (players s) (decisions s) roll))
      as (Hid & Hnick & Hlen).
    destruct (identities_maps _ _
                (distributePot_identities
                   (resolveRound (players s) (decisions s) roll) w (pot s)))
      as (Hid' & Hnick' & Hlen').
    apply checkWinCondition_in in Hwin. rewrite Hid in Hwin.
    shape_cbn. rewrite Hid', Hnick', Hlen', Hid, Hnick, Hlen.
    split_and!; try done; try config_lia. by exists w.
  - destruct Hshape as (H1 & H2 & H3 & H4 & H5 & H6 & H7 & H8 & H9 & H10 & H11).
    rewrite Hplaying in H11.
    destruct H11 as (P1 & P2 & P3 & P4 & P5 & P6 & P7).
    destruct (identities_maps _ _
                (resolveRound_identities (players s) (decisions s) roll))
      as (Hid & Hnick & Hlen).
    assert (Hn : 0 < Z.of_nat (length (players s))) by config_lia.
    pose proof (getNextCaptain_cases _ Hn (captainIndex s) P3) as Hnext.
    shape_cbn. rewrite Hid, Hnick, Hlen, Hplaying.
    split_and!; try done; try config_lia.
    + intros k [x Hx]. by rewrite lookup_empty in Hx.
    + rewrite Hnext. case_decide; lia.
    + rewrite Hnext. case_decide; lia.
    + replace (STARTING_POINTS - stake s + SUCCESS_REWARD * (step s + 1 - 1))
        with (STARTING_POINTS - stake s + SUCCESS_REWARD * (step s - 1)
              + SUCCESS_REWARD) by lia.
      apply resolveRound_upper; [config_lia | exact P5].
    + intros Hids. specialize (P6 Hids).
      destruct (Z_lt_le_dec (step s) (maxSteps s)) as [Hlt | Hge]; [lia |].
      exfalso.
      assert (Hne : resolveRound (players s) (decisions s) roll <> []).
      { intros Hnil. rewrite Hnil in Hlen. cbn in Hlen. config_lia. }
      destruct (checkWinCondition_step_limit _ (step s) (maxSteps s)
                  (winThreshold s) Hne Hge) as [w Hw].
      rewrite Hw in Hwin. apply truthy_None_Some in Hwin. subst w.
      apply checkWinCondition_in in Hw. rewrite Hid in Hw.
      rewrite Forall_forall in Hids. by apply (Hids _ Hw).
    + by left.
Qed.

Lemma room_shape_handleAction (s : RoomState)
    (playerId playerSecret : option string) (type : ActionType)
    (randomByte : byte) (now : Z) :
  room_shape s ->
  room_shape (handleAction s playerId playerSecret type randomByte now).1.
Proof.
  intros Hshape.
  destruct (handleAction_cases s playerId playerSecret type randomByte now)
    as [-> | [(_ & Hplaying & Hphase & _ & captain & h & Hcap & _ & Hr)
             | (d & _ & Hplaying & Hphase & _ & captain & h & i & p & Hcap
                & Hne & _ & Hi & Hid & Hr)]]; [done | |].
  - pose proof (room_shape_after_roll s captain randomByte now h
                  Hplaying Hphase Hcap Hshape) as H1.
    destruct Hr as [-> | ->]; [done |].
    by apply room_shape_resolveAndAdvance.
  - rewrite <- Hid in Hr, Hne.
    pose proof (room_shape_after_decision s captain p d h Hplaying Hphase Hcap
                  (list_elem_of_lookup_2 _ _ _ Hi) Hne Hshape) as H1.
    destruct Hr as [-> | ->]; [done |].
    by apply room_shape_resolveAndAdvance.
Qed.

Lemma fetch_shape (room : GameRoom) (request : Request) (now : Z) :
  room_ok room -> shape_ok room -> shape_ok (fetch room request now).1.
Proof.
  intros Hok Hshape.
  destruct request as [stake maxPlayers token | nick cid csec | pid psec
                      | pid psec | pid psec type b | server pid psec];
    cbn [fetch].
  - destruct (handleCreate_cases (roomState room) stake maxPlayers token now)
      as [[e ->] | (_ & Hstake & Hmax & ->)]; cbn; intros s' Hs'.
    + by apply Hshape.
    + injection Hs' as <-. apply room_shape_set_history.
      by apply room_shape_create.
  - destruct (roomState room) as [s |] eqn:Hs;
      [| by rewrite with_room_None].
    rewrite (with_room_Some _ s) by done. cbn. intros s' [= <-].
    destruct (handleJoin_cases s nick cid csec now)
      as [-> | (Hlobby & Hfull & Hlen & Hfree & h & ->)]; [by apply Hshape |].
    cbn [fst]. apply room_shape_set_history.
    apply room_shape_join; try done. by apply Hshape.
  - destruct (roomState room) as [s |] eqn:Hs;
      [| by rewrite with_room_None].
    rewrite (with_room_Some _ s) by done. cbn. intros s' [= <-].
    destruct (handleReady_cases s pid psec now)
      as [-> | (_ & i & p & h & Hi & _ & _ & ->)]; [by apply Hshape |].
    cbn [fst]. apply room_shape_set_history.
    apply (room_shape_replace_player _ _ p); try done. by apply Hshape.
  - destruct (roomState room) as [s |] eqn:Hs;
      [| by rewrite with_room_None].
    rewrite (with_room_Some _ s) by done. cbn. intros s' [= <-].
    destruct (handleStart_cases s pid psec now)
      as [-> | (Hlobby & _ & Hn & _ & h & ->)]; [by apply Hshape |].
    cbn [fst]. apply room_shape_set_history.
    apply room_shape_start; try done; [by apply Hok | by apply Hshape].
  - destruct (roomState room) as [s |] eqn:Hs;
      [| by rewrite with_room_None].
    rewrite (with_room_Some _ s) by done. cbn. intros s' [= <-].
    apply room_shape_handleAction. by apply Hshape.
  - destruct (handleWebSocket_cases room server pid psec)
      as [-> | (s & i & p & Hs & Hi & _ & _ & _ & ->)]; [done |].
    cbn. intros s' [= <-].
    apply (room_shape_replace_player _ _ p); try done. by apply Hshape.
Qed.

Lemma onClose_shape (room : GameRoom) (server : nat) :
  shape_ok room -> shape_ok (onClose room server).
Proof.
  intros Hshape s'.
  destruct (onClose_cases room server)
    as [-> | (s & i & p & pid & Hs & _ & Hi & _ & ->)]; [apply Hshape |].
  intros [= <-].
  apply (room_shape_replace_player _ _ p); try done. by apply Hshape.
Qed.

(** Every room the actor can reach has the shape. *)
Lemma reachable_shape (room : GameRoom) :
  reachable room -> room_ok room /\ shape_ok room.
Proof.
  unfold reachable. intros Hreach.
  apply rtc_ind_r with (x := newGameRoom)
    (P := fun room => room_ok room /\ shape_ok room) in Hreach; [done | |].
  - split; intros s; discriminate.
  - intros r1 r2 _ Hstep [Hok Hshape].
    destruct Hstep as [r request now | r server].
    + split; [by apply fetch_ok | by apply fetch_shape].
    + split; [by apply onClose_ok | by apply onClose_shape].
Qed.

(** ** The event log stays bounded *)

Ltac history_bound :=
  repeat first
    [ assumption
    | apply logEvent_bounded
    | progress cbn [fst history set_history set_lastRoll set_decisions
                    set_phase set_captainIndex set_step set_pot set_winnerId
                    set_status set_players set_hostId] ].

Lemma resolveAndAdvance_history (now : Z) (s : RoomState) :
  (length (history s) <= 100)%nat ->
  (length (history (resolveAndAdvance now s)) <= 100)%nat.
Proof.
  intros H. unfold resolveAndAdvance.
  repeat case_match; cbn zeta; history_bound.
Qed.

Lemma handler_history (s : RoomState) (request : Request) (now : Z) :
  (length (history s) <= 100)%nat ->
  match request with
  | Create _ _ _ | WebSocket _ _ _ => True
  | Join nick cid csec =>
      (length (history (handleJoin s nick cid csec now).1) <= 100)%nat
  | Ready pid psec =>
      (length (history (handleReady s pid psec now).1) <= 100)%nat
  | Start pid psec =>
      (length (history (handleStart s pid psec now).1) <= 100)%nat
  | Action pid psec type b =>
      (length (history (handleAction s pid psec type b now).1) <= 100)%nat
  end.
Proof.
  intros H. destruct request; [done | | | | | done].
  - unfold handleJoin, reject. repeat case_match; cbn zeta; history_bound.
  - unfold handleReady, reject. repeat case_match; cbn zeta; history_bound.
  - unfold handleStart, reject. repeat case_match; cbn zeta; history_bound.
  - unfold handleAction, reject.
    repeat case_match; cbn zeta; cbn [fst];
      try apply resolveAndAdvance_history; history_bound.
Qed.

Lemma reachable_history (room : GameRoom) :
  reachable room -> history_ok room.
Proof.
  unfold reachable. intros Hreach.
  apply rtc_ind_r with (x := newGameRoom) (P := history_ok) in Hreach;
    [done | |].
  - intros s. discriminate.
  - intros r1 r2 _ Hstep Hok.
    destruct Hstep as [r request now | r server].
    + destruct request as [stake maxPlayers token | nick cid csec | pid psec
                          | pid psec | pid psec type b | server pid psec];
        cbn [fetch].
      * destruct (handleCreate_cases (roomState r) stake maxPlayers token now)
          as [[e ->] | (_ & _ & _ & ->)]; cbn; intros s' Hs'.
        -- by apply Hok.
        -- injection Hs' as <-. cbn. lia.
      * destruct (roomState r) as [s |] eqn:Hs;
          [| by rewrite with_room_None].
        rewrite (with_room_Some _ s) by done. cbn. intros s' [= <-].
        apply (handler_history s (Join nick cid csec) now). by apply Hok.
      * destruct (roomState r) as [s |] eqn:Hs;
          [| by rewrite with_room_None].
        rewrite (with_room_Some _ s) by done. cbn. intros s' [= <-].
        apply (handler_history s (Ready pid psec) now). by apply Hok.
      * destruct (roomState r) as [s |] eqn:Hs;
          [| by rewrite with_room_None].
        rewrite (with_room_Some _ s) by done. cbn. intros s' [= <-].
        apply (handler_history s (Start pid psec) now). by apply Hok.
      * destruct (roomState r) as [s |] eqn:Hs;
          [| by rewrite with_room_None].
        rewrite (with_room_Some _ s) by done. cbn. intros s' [= <-].
        apply (handler_history s (Action pid psec type b) now). by apply Hok.
      * destruct (handleWebSocket_cases r server pid psec)
          as [-> | (s & i & p & Hs & Hi & _ & _ & _ & ->)]; [done |].
        cbn. intros s' [= <-]. cbn. by apply Hok.
    + intros s'.
      destruct (onClose_cases r server)
        as [-> | (s & i & p & pid & Hs & _ & Hi & _ & ->)]; [apply Hok |].
      intros [= <-]. cbn. by apply Hok.
Qed.

(** ** Rooms whose credentials the engine generated *)

Lemma resolveAndAdvance_ids (now : Z) (s : RoomState) :
  map id (players (resolveAndAdvance now s)) = map id (players s).
Proof.
  destruct (resolveAndAdvance_cases now s)
    as [[_ ->] | (roll & h & _ & [(w & _ & _ & ->) | (_ & ->)])]; [done | |];
    cbn [set_history set_lastRoll set_decisions set_phase set_captainIndex
         set_step set_pot set_winnerId set_status set_players players].
  - rewrite (proj1 (identities_maps _ _ (distributePot_identities _ _ _))).
    apply (identities_maps _ _ (resolveRound_identities _ _ _)).
  - apply (identities_maps _ _ (resolveRound_identities _ _ _)).
Qed.

Lemma handleAction_ids (s : RoomState) (playerId playerSecret : option string)
    (type : ActionType) (randomByte : byte) (now : Z) :
  map id (players (handleAction s playerId playerSecret type randomByte now).1)
  = map id (players s).
Proof.
  destruct (handleAction_cases s playerId playerSecret type randomByte now)
    as [-> | [(_ & _ & _ & _ & captain & h & _ & _ & [-> | ->])
             | (d & _ & _ & _ & _ & captain & h & i & p & _ & _ & _ & _ & _
                & [-> | ->])]];
    try done; by rewrite resolveAndAdvance_ids.
Qed.

Lemma played_step_ids (room room' : GameRoom) :
  played_step room room' -> ids_ok room -> ids_ok room'.
Proof.
  intros Hstep Hok.
  destruct Hstep as [r request now Hgen | r server].
  - destruct request as [stake maxPlayers token | nick cid csec | pid psec
                        | pid psec | pid psec type b | server pid psec];
      cbn [fetch].
    + destruct (handleCreate_cases (roomState r) stake maxPlayers token now)
        as [[e ->] | (_ & _ & _ & ->)]; cbn; intros s' Hs'.
      * by apply Hok.
      * injection Hs' as <-. constructor.
    + destruct (roomState r) as [s |] eqn:Hs;
        [| by rewrite with_room_None].
      rewrite (with_room_Some _ s) by done. cbn. intros s' [= <-].
      destruct (handleJoin_cases s nick cid csec now)
        as [-> | (_ & _ & _ & _ & h & ->)]; [by apply Hok |].
      cbn. rewrite map_app. apply Forall_app. split; [by apply Hok |].
      apply Forall_singleton. cbn.
      destruct Hgen as (idArray & secretArray & Hcred).
      injection Hcred as <- _.
      by rewrite hex_of_bytes_length, length_vec_to_list.
    + destruct (roomState r) as [s |] eqn:Hs;
        [| by rewrite with_room_None].
      rewrite (with_room_Some _ s) by done. cbn. intros s' [= <-].
      destruct (handleReady_cases s pid psec now)
        as [-> | (_ & i & p & h & Hi & _ & _ & ->)]; [by apply Hok |].
      cbn. rewrite (map_insert_same _ _ _ p) by done. by apply Hok.
    + destruct (roomState r) as [s |] eqn:Hs;
        [| by rewrite with_room_None].
      rewrite (with_room_Some _ s) by done. cbn. intros s' [= <-].
      destruct (handleStart_cases s pid psec now)
        as [-> | (_ & _ & _ & _ & h & ->)]; [by apply Hok |].
      cbn [fst set_history set_decisions set_captainIndex set_step set_phase
           set_status set_pot set_players players].
      rewrite (proj1 (identities_maps _ _ (collectStakes_identities _ _))).
      by apply Hok.
    + destruct (roomState r) as [s |] eqn:Hs;
        [| by rewrite with_room_None].
      rewrite (with_room_Some _ s) by done. cbn. intros s' [= <-].
      rewrite handleAction_ids. by apply Hok.
    + destruct (handleWebSocket_cases r server pid psec)
        as [-> | (s & i & p & Hs & Hi & _ & _ & _ & ->)]; [done |].
      cbn. intros s' [= <-]. cbn.
      rewrite (map_insert_same _ _ _ p) by done. by apply Hok.
  - intros s'.
    destruct (onClose_cases r server)
      as [-> | (s & i & p & pid & Hs & _ & Hi & _ & ->)]; [apply Hok |].
    intros [= <-]. cbn.
    rewrite (map_insert_same _ _ _ p) by done. by apply Hok.
Qed.

Lemma playable_reachable (room : GameRoom) : playable room -> reachable room.
Proof.
  unfold playable, reachable. intros H.
  eapply rtc_subrel; [| exact H].
  intros r1 r2 [r request now _ | r server]; constructor.
Qed.

Lemma playable_ids (room : GameRoom) : playable room -> ids_ok room.
Proof.
  unfold playable. intros Hplay.
  apply rtc_ind_r with (x := newGameRoom) (P := ids_ok) in Hplay; [done | |].
  - intros s. discriminate.
  - intros r1 r2 _ Hstep IH. by eapply played_step_ids.
Qed.

(** * Invariants of the reachable rooms, continued *)

Lemma scenario2_reachable : reachable scenario2_room.
Proof. apply serve_reachable, rtc_refl. Qed.

Lemma finished_reachable : reachable finished_room.
Proof. apply serve_reachable, rtc_refl. Qed.

Lemma scenario2_state : roomState scenario2_room = Some (state_of scenario2_room).
Proof. by vm_compute. Qed.

Lemma finished_state : roomState finished_room = Some (state_of finished_room).
Proof. by vm_compute. Qed.






(** X15. In every reachable room the pot is [stake * players.length]
    while the game is PLAYING and zero in the lobby and once FINISHED. *)
Theorem pot_accounting (room : GameRoom) (s : RoomState) :
  reachable room ->
  roomState room = Some s ->
  pot s = match status s with
          | PLAYING => stake s * Z.of_nat (length (players s))
          | LOBBY | FINISHED => 0
          end.
Proof.
  intros Hreach Hs.
  destruct (proj2 (reachable_shape room Hreach) s Hs)
    as (_ & _ & _ & _ & _ & _ & _ & _ & _ & _ & H11).
  destruct (status s).
  - by destruct H11 as (_ & _ & ? & _).
  - by destruct H11 as (_ & ? & _).
  - by destruct H11 as (_ & ? & _).
Qed.

Lemma pot_accounting_witness :
  reachable scenario2_room
  /\ pot (state_of scenario2_room)
     = stake (state_of scenario2_room)
       * Z.of_nat (length (players (state_of scenario2_room))).
Proof.
  split; [exact scenario2_reachable |].
  exact (pot_accounting _ _ scenario2_reachable scenario2_state).
Defined.

(** X16. In every reachable room: the phase is WAIT_READY exactly in the
    lobby and is never RESOLUTION; a finished room rests in DECISIONS;
    a roll is held exactly in phase DECISIONS, and a held roll has a value
    from 1 to 100 with [success] the test [value >= 40]; the step is 0 in
    the lobby and at least 1 afterwards. *)
Theorem phase_coherence (room : GameRoom) (s : RoomState) :
  reachable room ->
  roomState room = Some s ->
  (status s = LOBBY <-> phase s = WAIT_READY)
  /\ phase s <> RESOLUTION
  /\ (status s = FINISHED -> phase s = DECISIONS)
  /\ (is_Some (lastRoll s) <-> phase s = DECISIONS)
  /\ (forall r, lastRoll s = Some r ->
        1 <= value r <= 100 /\ success r = bool_decide (value r >= 40))
  /\ (status s = LOBBY -> step s = 0)
  /\ (status s <> LOBBY -> 1 <= step s).
Proof.
  intros Hreach Hs.
  destruct (proj2 (reachable_shape room Hreach) s Hs)
    as (_ & _ & _ & _ & _ & _ & _ & _ & H9 & H10 & H11).
  assert (Hphase : match status s with
                   | LOBBY => phase s = WAIT_READY /\ step s = 0
                   | PLAYING =>
                       (phase s = CAPTAIN_TURN \/ phase s = DECISIONS)
                       /\ 1 <= step s
                   | FINISHED => phase s = DECISIONS /\ 1 <= step s
                   end).
  { destruct (status s).
    - by destruct H11 as (? & ? & _).
    - destruct H11 as (_ & _ & _ & ? & _ & _ & [[? _] | [? _]]); auto.
    - by destruct H11 as (_ & _ & ? & ? & _). }
  split_and!.
  - destruct (status s); split; try done;
      destruct Hphase as [Hp _]; try (destruct Hp as [Hp | Hp]); congruence.
  - destruct (status s); destruct Hphase as [Hp _];
      try (destruct Hp as [Hp | Hp]); congruence.
  - intros Hfin. rewrite Hfin in Hphase. tauto.
  - exact H10.
  - intros r Hr. destruct (H9 r Hr) as [Hv ->]. split; [exact Hv |].
    unfold SUCCESS_THRESHOLD.
    destruct (Z.leb_spec 40 (value r)); symmetry;
      [apply bool_decide_eq_true | apply bool_decide_eq_false]; lia.
  - intros Hl. rewrite Hl in Hphase. tauto.
  - destruct (status s); [done | |]; intros _; tauto.
Qed.

Lemma phase_coherence_witness :
  reachable finished_room
  /\ status (state_of finished_room) = FINISHED
  /\ phase (state_of finished_room) = DECISIONS.
Proof.
  assert (Hfin : status (state_of finished_room) = FINISHED) by by vm_compute.
  split; [exact finished_reachable |]. split; [exact Hfin |].
  exact (proj1 (proj2 (proj2
           (phase_coherence _ _ finished_reachable finished_state))) Hfin).
Defined.

(** X17. In every reachable room every recorded decision belongs to a
    player of the room; outside phase DECISIONS nothing is recorded; and
    while the game is PLAYING in phase DECISIONS the captain's own
    decision is recorded as STAY. *)
Theorem decisions_coherence (room : GameRoom) (s : RoomState) :
  reachable room ->
  roomState room = Some s ->
  (forall k, is_Some (decisions s !! k) -> k ∈ map id (players s))
  /\ (phase s <> DECISIONS -> decisions s = ∅)
  /\ (status s = PLAYING -> phase s = DECISIONS ->
      exists captain,
        at_index (players s) (captainIndex s) = Some captain
        /\ decisions s !! id captain = Some STAY).
Proof.
  intros Hreach Hs.
  destruct (proj2 (reachable_shape room Hreach) s Hs)
    as (_ & _ & _ & _ & _ & _ & _ & H8 & _ & _ & H11).
  split_and!; [exact H8 | |].
  - intros Hph. destruct (status s).
    + by destruct H11 as (_ & _ & _ & _ & ?).
    + destruct H11 as (_ & _ & _ & _ & _ & _ & [[_ ?] | [? _]]); done.
    + by destruct H11 as (_ & _ & ? & _).
  - intros Hplaying Hph. rewrite Hplaying in H11.
    destruct H11 as (_ & _ & P3 & _ & _ & _
                     & [[? _] | (_ & cid & Hcid & Hstay)]); [congruence |].
    change (map id (players s)) with (id <$> players s) in Hcid.
    rewrite list_lookup_fmap in Hcid.
    destruct (players s !! Z.to_nat (captainIndex s)) as [captain |] eqn:Hc;
      [| done].
    injection Hcid as <-. exists captain. split; [| done].
    unfold at_index. destruct (Z.ltb_spec (captainIndex s) 0); [lia | done].
Qed.

Lemma decisions_coherence_witness :
  reachable scenario2_room
  /\ phase (state_of scenario2_room) <> DECISIONS
  /\ decisions (state_of scenario2_room) = ∅.
Proof.
  assert (Hph : phase (state_of scenario2_room) <> DECISIONS)
    by (vm_compute; discriminate).
  split; [exact scenario2_reachable |]. split; [exact Hph |].
  exact (proj1 (proj2
           (decisions_coherence _ _ scenario2_reachable scenario2_state)) Hph).
Defined.

(** X18. In every reachable room the host is the first player who
    joined; a room without players has the empty host id. *)
Theorem host_is_first_joiner (room : GameRoom) (s : RoomState) :
  reachable room ->
  roomState room = Some s ->
  hostId s = match players s with
             | [] => EmptyString
             | first :: _ => id first
             end.
Proof.
  intros Hreach Hs.
  destruct (proj2 (reachable_shape room Hreach) s Hs)
    as (_ & _ & _ & _ & H5 & _).
  rewrite H5. by destruct (players s).
Qed.

Lemma host_is_first_joiner_witness :
  reachable finished_room /\ hostId (state_of finished_room) = alice_id.
Proof.
  split; [exact finished_reachable |].
  exact (host_is_first_joiner _ _ finished_reachable finished_state).
Defined.

(** X19. In every reachable room the nicknames are between 1 and 20
    characters long and no two are equal up to letter case. *)
Theorem nicknames_distinct (room : GameRoom) (s : RoomState) :
  reachable room ->
  roomState room = Some s ->
  Forall (fun p => 1 <= str_length (nickname p) <= 20) (players s)
  /\ NoDup (map (fun p => toLowerCase (nickname p)) (players s)).
Proof.
  intros Hreach Hs.
  destruct (proj2 (reachable_shape room Hreach) s Hs)
    as (_ & _ & _ & _ & _ & H6 & H7 & _).
  split.
  - apply Forall_forall. intros p Hp. rewrite Forall_forall in H7.
    apply H7. apply list_elem_of_fmap. by exists p.
  - by rewrite map_map in H6.
Qed.

Lemma nicknames_distinct_witness :
  reachable finished_room
  /\ NoDup (map (fun p => toLowerCase (nickname p))
              (players (state_of finished_room))).
Proof.
  split; [exact finished_reachable |].
  exact (proj2 (nicknames_distinct _ _ finished_reachable finished_state)).
Defined.

(** X20. In every reachable room a recorded winner is the non-empty id of
    one of the players, and the room is then FINISHED with an empty pot;
    a FINISHED room has such a winner. *)
Theorem winner_is_a_player (room : GameRoom) (s : RoomState) :
  reachable room ->
  roomState room = Some s ->
  (forall w, winnerId s = Some w ->
             w <> EmptyString /\ w ∈ map id (players s)
             /\ status s = FINISHED /\ pot s = 0)
  /\ (status s = FINISHED ->
      exists w, winnerId s = Some w /\ w ∈ map id (players s)).
Proof.
  intros Hreach Hs.
  destruct (reachable_shape room Hreach) as [Hok Hshape].
  destruct (Hok s Hs) as (Hw & _).
  destruct (Hshape s Hs) as (_ & _ & _ & _ & _ & _ & _ & _ & _ & _ & H11).
  split.
  - intros w Hwin.
    assert (Hfin : status s = FINISHED) by (apply Hw; by eexists).
    rewrite Hfin in H11.
    destruct H11 as (_ & Hpot & _ & _ & w' & Hw' & Hne & Hin).
    rewrite Hwin in Hw'. injection Hw' as <-. done.
  - intros Hfin. rewrite Hfin in H11.
    destruct H11 as (_ & _ & _ & _ & w & Hw' & _ & Hin). by exists w.
Qed.

Lemma winner_is_a_player_witness :
  reachable finished_room
  /\ status (state_of finished_room) = FINISHED
  /\ exists w, winnerId (state_of finished_room) = Some w
               /\ w ∈ map id (players (state_of finished_room)).
Proof.
  assert (Hfin : status (state_of finished_room) = FINISHED) by by vm_compute.
  split; [exact finished_reachable |]. split; [exact Hfin |].
  exact (proj2 (winner_is_a_player _ _ finished_reachable finished_state) Hfin).
Defined.

(** X21. In every reachable room the event log holds at most 100
    events. *)
Theorem history_is_bounded (room : GameRoom) (s : RoomState) :
  reachable room ->
  roomState room = Some s ->
  (length (history s) <= 100)%nat.
Proof. intros Hreach Hs. by apply (reachable_history room Hreach). Qed.

Lemma history_is_bounded_witness :
  reachable finished_room
  /\ (length (history (state_of finished_room)) <= 100)%nat.
Proof.
  split; [exact finished_reachable |].
  exact (history_is_bounded _ _ finished_reachable finished_state).
Defined.

Lemma serve_playable (room : GameRoom) (requests : list (Request * Z)) :
  Forall (fun r => generated r.1) requests ->
  playable room -> playable (serve room requests).
Proof.
  intros Hgen. revert room.
  induction Hgen as [| [request now] rest Hg _ IH]; intros room Hr; [done |].
  cbn. apply IH. eapply rtc_r; [exact Hr | by constructor].
Qed.

Lemma scenario2_playable : playable scenario2_room.
Proof.
  apply serve_playable; [| apply rtc_refl].
  repeat constructor; cbn.
  - exists [# "161"; "028"; "224"; "000"; "000"; "000"; "000"; "001"]%byte,
      [# "094"; "194"; "231"; "000"; "000"; "000"; "000"; "000";
         "000"; "000"; "000"; "000"; "000"; "010"; "017"; "206"]%byte.
    reflexivity.
  - exists [# "176"; "176"; "000"; "000"; "000"; "000"; "000"; "002"]%byte,
      [# "094"; "194"; "231"; "000"; "000"; "000"; "000"; "000";
         "000"; "000"; "000"; "000"; "000"; "000"; "176"; "176"]%byte.
    reflexivity.
Qed.

(** X22. With credentials as the engine generates them, a room that is
    PLAYING is in one of its 10 steps and every player has between 0 and
    140 points; whatever the decisions and the roll, resolving the round
    leaves everybody below the win threshold of 150.  So in the actor the
    threshold rule of [checkWinCondition] never decides a game: games end
    at the step limit or by attrition. *)
Theorem threshold_out_of_reach (room : GameRoom) (s : RoomState) :
  playable room ->
  roomState room = Some s ->
  status s = PLAYING ->
  1 <= step s <= 10
  /\ Forall (fun p => 0 <= points p <= 140) (players s)
  /\ (forall decisions roll,
        List.find (fun p => winThreshold s <=? points p)
          (resolveRound (players s) decisions roll) = None).
Proof.
  intros Hplay Hs Hplaying.
  pose proof (playable_ids room Hplay s Hs) as Hids.
  destruct (reachable_shape room (playable_reachable room Hplay))
    as [Hok Hshape].
  pose proof (room_inv_nonneg s (Hok s Hs)) as Hnonneg.
  destruct (Hshape s Hs)
    as ((Hmax & Hthr) & Hstake & _ & _ & _ & _ & _ & _ & _ & _ & H11).
  rewrite Hplaying in H11. destruct H11 as (_ & _ & _ & P4 & P5 & P6 & _).
  assert (Hstep : step s <= maxSteps s).
  { apply P6. eapply Forall_impl; [exact Hids |]. cbn. by intros i Hi ->. }
  assert (Hbound : Forall (fun x => x <= 140) (map points (players s))).
  { eapply Forall_impl; [exact P5 |]. cbn. intros x Hx. config_lia. }
  split; [config_lia |]. split.
  - apply Forall_forall. intros p Hp. split.
    + by apply (proj1 (Forall_forall _ _) Hnonneg).
    + apply (proj1 (Forall_forall (fun x => x <= 140) _) Hbound).
      apply list_elem_of_fmap. by exists p.
  - intros decisions roll. apply find_none_below.
    pose proof (resolveRound_upper (players s) decisions roll 140
                  ltac:(lia) Hbound) as Hup.
    apply Forall_forall. intros p Hp.
    assert (points p <= 140 + SUCCESS_REWARD).
    { apply (proj1 (Forall_forall (fun x => x <= 140 + SUCCESS_REWARD) _) Hup).
      apply list_elem_of_fmap. by exists p. }
    config_lia.
Qed.

Lemma threshold_out_of_reach_witness :
  playable scenario2_room
  /\ status (state_of scenario2_room) = PLAYING
  /\ Forall (fun p => 0 <= points p <= 140)
       (players (state_of scenario2_room)).
Proof.
  assert (Hp : status (state_of scenario2_room) = PLAYING) by by vm_compute.
  split; [exact scenario2_playable |]. split; [exact Hp |].
  exact (proj1 (proj2 (threshold_out_of_reach _ _ scenario2_playable
                         scenario2_state Hp))).
Defined.



(** ** Ready, sockets *)

Lemma validatePlayer_after_toggle (s : RoomState) (playerId playerSecret : string)
    (i : nat) (player : Player) (b : bool) (h : list GameEvent) :
  validatePlayer s playerId playerSecret = Some (i, player) ->
  validatePlayer
    (set_history h (set_players (<[i := set_ready b player]> (players s)) s))
    playerId playerSecret
  = Some (i, set_ready b player).
Proof.
  unfold validatePlayer. cbn [set_history set_players players].
  destruct (list_find _ (players s)) as [[j q] |] eqn:Hfind; [| done].
  case_decide as Hsec; [| done]. intros [= -> ->].
  apply list_find_Some in Hfind as (Hi & Hid & Hfirst).
  assert (Hfind' : list_find (fun p => id p = playerId)
                     (<[i := set_ready b player]> (players s))
                   = Some (i, set_ready b player)).
  { apply list_find_Some. split_and!.
    - apply list_lookup_insert_eq. by eapply lookup_lt_Some.
    - done.
    - intros j y Hj Hlt. rewrite list_lookup_insert_ne in Hj by lia.
      by apply (Hfirst j). }
  rewrite Hfind'. cbn. by rewrite decide_True.
Qed.

(** X24. Toggling ready twice with the same credentials brings the
    players, and with them the whole public state, back to where they
    were: the second answer is the opposite of the first. *)
Theorem ready_twice_restores (s s1 : RoomState)
    (playerId playerSecret : option string) (now now' : Z) (b : bool) :
  handleReady s playerId playerSecret now
  = (s1, jsonResponse (ReadyBody b) 200) ->
  exists s2,
    handleReady s1 playerId playerSecret now'
    = (s2, jsonResponse (ReadyBody (negb b)) 200)
    /\ players s2 = players s
    /\ getPublicState (Some s2) = getPublicState (Some s).
Proof.
  unfold handleReady at 1. unfold reject.
  case_bool_decide as Hlobby; cbn [negb]; [| done].
  destruct (falsy playerId || falsy playerSecret) eqn:Hcred; [done |].
  destruct (validatePlayer s _ _) as [[i player] |] eqn:Hv; [| done].
  cbn zeta. name_logEvent h. intros [= <- <-].
  pose proof (validatePlayer_after_toggle s _ _ i player
                (negb (ready player)) h Hv) as Hv'.
  apply validatePlayer_id in Hv as (Hi & _ & _).
  unfold handleReady, reject.
  cbn [set_history set_players status]. rewrite Hlobby, Hcred.
  rewrite bool_decide_eq_true_2 by done. cbn [negb].
  rewrite Hv'. cbn zeta. name_logEvent h'.
  eexists. split; [reflexivity |].
  assert (Hplayers :
            <[i := set_ready (negb (negb (ready player)))
                     (set_ready (negb (ready player)) player)]>
              (<[i := set_ready (negb (ready player)) player]> (players s))
            = players s).
  { rewrite list_insert_insert_eq, negb_involutive.
    apply list_insert_id. rewrite Hi. f_equal. by destruct player. }
  cbn [set_history set_players players set_ready ready] in *.
  split; [exact Hplayers |].
  cbn. rewrite Hplayers. reflexivity.
Qed.

Lemma ready_twice_restores_witness :
  exists s1 s2,
    handleReady scenario1_lobby_state (Some bob_id) (Some bob_secret) 6
    = (s1, jsonResponse (ReadyBody false) 200)
    /\ handleReady s1 (Some bob_id) (Some bob_secret) 7
       = (s2, jsonResponse (ReadyBody true) 200)
    /\ players s2 = players scenario1_lobby_state.
Proof.
  eexists (handleReady scenario1_lobby_state (Some bob_id) (Some bob_secret) 6).1.
  assert (H1 : handleReady scenario1_lobby_state (Some bob_id) (Some bob_secret) 6
               = ((handleReady scenario1_lobby_state (Some bob_id)
                     (Some bob_secret) 6).1,
                  jsonResponse (ReadyBody false) 200)) by by vm_compute.
  destruct (ready_twice_restores _ _ _ _ 6 7 false H1) as (s2 & H2 & Hp & _).
  exists s2. split; [exact H1 |]. split; [exact H2 | exact Hp].
Defined.

(** X25. A closing socket is dropped from the registry and never moves
    the game: status, phase, step, decisions and roll stay, and so do the
    players but for one [connected] flag.  If the socket stood for a
    player, that player is marked disconnected, whatever other sockets
    still stand for the same player; a socket that was not registered
    changes nothing in the room state. *)
Theorem close_marks_offline (room : GameRoom) (server : nat) :
  sessions (onClose room server) = delete server (sessions room)
  /\ (forall s,
        roomState room = Some s ->
        exists s',
          roomState (onClose room server) = Some s'
          /\ (status s', phase s', step s', decisions s', lastRoll s',
              captainIndex s', pot s', winnerId s', history s')
             = (status s, phase s, step s, decisions s, lastRoll s,
                captainIndex s, pot s, winnerId s, history s)
          /\ map (fun p => (identity_of p, points p, ready p)) (players s')
             = map (fun p => (identity_of p, points p, ready p)) (players s))
  /\ (forall s pid,
        roomState room = Some s ->
        sessions room !! server = Some pid ->
        pid <> EmptyString ->
        pid ∈ map id (players s) ->
        exists s' i p,
          roomState (onClose room server) = Some s'
          /\ players s' !! i = Some p /\ id p = pid /\ connected p = false)
  /\ (sessions room !! server = None ->
      roomState (onClose room server) = roomState room).
Proof.
  split_and!.
  - reflexivity.
  - intros s Hs.
    destruct (onClose_cases room server)
      as [-> | (s0 & i & p & pid & Hs0 & _ & Hi & _ & ->)].
    + by exists s.
    + rewrite Hs in Hs0. injection Hs0 as <-.
      eexists. split; [reflexivity |]. split; [reflexivity |].
      cbn. by apply (map_insert_same _ _ _ p).
  - intros s pid Hs Hpid Hne Hin. unfold onClose. cbn [roomState].
    rewrite Hpid, Hs.
    assert (truthy (Some pid) = Some pid) as ->.
    { unfold truthy, falsy. by rewrite bool_decide_eq_false_2. }
    destruct (list_find (fun p => id p = pid) (players s))
      as [[i player] |] eqn:Hfind.
    + apply list_find_Some in Hfind as (Hi & Hid & _).
      eexists _, i, (set_connected false player).
      split; [reflexivity |]. cbn. split; [| done].
      apply list_lookup_insert_eq. by eapply lookup_lt_Some.
    + exfalso. apply list_elem_of_fmap in Hin as (p & -> & Hp).
      apply list_find_None in Hfind. rewrite Forall_forall in Hfind.
      by apply (Hfind p Hp).
  - intros Hnone. unfold onClose. cbn [roomState]. rewrite Hnone. cbn.
    by destruct (roomState room).
Qed.

(** Alice opens two sockets and closes the first: she is shown as
    disconnected although the second socket is still registered. *)
Lemma close_marks_offline_witness :
  let room :=
    (fetch (fetch scenario2_room (WebSocket 1 alice.1 alice.2) 9).1
       (WebSocket 2 alice.1 alice.2) 9).1 in
  sessions room !! 1%nat = Some alice_id
  /\ sessions (onClose room 1) !! 2%nat = Some alice_id
  /\ exists s' i p,
       roomState (onClose room 1) = Some s'
       /\ players s' !! i = Some p /\ id p = alice_id /\ connected p = false.
Proof.
  intros room.
  assert (H1 : sessions room !! 1%nat = Some alice_id) by by vm_compute.
  split; [exact H1 |]. split; [by vm_compute |].
  refine (proj1 (proj2 (proj2 (close_marks_offline room 1)))
            (state_of room) alice_id _ H1 _ _).
  - by vm_compute.
  - discriminate.
  - apply (list_elem_of_lookup_2 _ 0%nat). by vm_compute.
Defined.

Lemma evolves_ids_mono (s s' : RoomState) (k : string) :
  evolves s s' -> k ∈ map id (players s) -> k ∈ map id (players s').
Proof.
  intros (_ & _ & _ & _ & _ & _ & [rest Hrest] & _) Hk.
  apply list_elem_of_fmap in Hk as (p & -> & Hp).
  assert (Hin : identity_of p ∈ map identity_of (players s')).
  { rewrite Hrest. apply elem_of_app. left.
    apply list_elem_of_fmap. by exists p. }
  apply list_elem_of_fmap in Hin as (q & Hq & Hq').
  apply list_elem_of_fmap. exists q. split; [| done].
  unfold identity_of in Hq. congruence.
Qed.

Lemma fetch_sessions (room : GameRoom) (request : Request) (now : Z) :
  (forall server pid psec, request <> WebSocket server pid psec) ->
  sessions (fetch room request now).1 = sessions room.
Proof.
  intros Hws.
  destruct request as [stake maxPlayers token | nick cid csec | pid psec
                      | pid psec | pid psec type b | server pid psec];
    cbn [fetch]; [| | | | | by destruct (Hws server pid psec)].
  - by destruct (handleCreate _ _ _ _ _).
  - unfold with_room. destruct (roomState room); [| done].
    by destruct (handleJoin _ _ _ _ _).
  - unfold with_room. destruct (roomState room); [| done].
    by destruct (handleReady _ _ _ _).
  - unfold with_room. destruct (roomState room); [| done].
    by destruct (handleStart _ _ _ _).
  - unfold with_room. destruct (roomState room); [| done].
    by destruct (handleAction _ _ _ _ _ _).
Qed.

Lemma sessions_ok_step (room room' : GameRoom) :
  room_step room room' -> sessions_ok room -> sessions_ok room'.
Proof.
  intros Hstep Hok server pid Hpid.
  assert (Hkeep : forall pid0,
             (pid0 <> EmptyString
              /\ exists s, roomState room = Some s
                           /\ pid0 ∈ map id (players s)) ->
             pid0 <> EmptyString
             /\ exists s', roomState room' = Some s'
                           /\ pid0 ∈ map id (players s')).
  { intros pid0 (Hne & s & Hs & Hin). split; [done |].
    destruct (room_step_evolves _ _ s Hstep Hs) as (s' & Hs' & He).
    exists s'. split; [done |]. by eapply evolves_ids_mono. }
  destruct Hstep as [r request now | r srv].
  - destruct (socket_or_not request) as [(srv & p & psec & ->) | Hws].
    + cbn [fetch] in *.
      destruct (handleWebSocket_cases r srv p psec)
        as [Heq | (s & i & player & Hs & Hi & Hid & _ & Hne & Heq)];
        rewrite Heq in *; cbn [fst sessions roomState] in *.
      * apply Hkeep. by apply (Hok server).
      * destruct (decide (srv = server)) as [-> | Hsrv].
        -- rewrite lookup_insert_eq in Hpid. injection Hpid as <-.
           split; [done |]. eexists. split; [reflexivity |].
           cbn. rewrite (map_insert_same _ _ _ player) by done.
           rewrite <- Hid. apply elem_of_map_id.
           by eapply list_elem_of_lookup_2.
        -- rewrite lookup_insert_ne in Hpid by done.
           destruct (Hok server pid Hpid) as (Hne' & s0 & Hs0 & Hin).
           split; [done |]. rewrite Hs in Hs0. injection Hs0 as <-.
           eexists. split; [reflexivity |].
           cbn. by rewrite (map_insert_same _ _ _ player).
    + rewrite fetch_sessions in Hpid by done.
      apply Hkeep. by apply (Hok server).
  - cbn [onClose sessions] in Hpid.
    apply lookup_delete_Some in Hpid as [_ Hpid].
    apply Hkeep. by apply (Hok server).
Qed.

(** X26. In every reachable room each registered socket stands for the
    non-empty id of a player of the room; in particular no socket is
    registered before the room is created. *)
Theorem sessions_name_players (room : GameRoom) :
  reachable room ->
  (forall server pid,
      sessions room !! server = Some pid ->
      pid <> EmptyString
      /\ exists s, roomState room = Some s /\ pid ∈ map id (players s))
  /\ (roomState room = None -> sessions room = ∅).
Proof.
  intros Hreach.
  assert (Hok : sessions_ok room).
  { unfold reachable in Hreach.
    apply rtc_ind_r with (x := newGameRoom) (P := sessions_ok) in Hreach;
      [done | |].
    - intros server pid Hpid. cbn in Hpid. by rewrite lookup_empty in Hpid.
    - intros r1 r2 _ Hstep IH. by eapply sessions_ok_step. }
  split; [exact Hok |].
  intros Hnone. apply map_empty. intros server.
  destruct (sessions room !! server) as [pid |] eqn:Hpid; [| done].
  destruct (Hok server pid Hpid) as (_ & s & Hs & _). congruence.
Qed.

Lemma sessions_name_players_witness :
  let room := (fetch scenario2_room (WebSocket 1 alice.1 alice.2) 9).1 in
  reachable room
  /\ sessions room !! 1%nat = Some alice_id
  /\ exists s, roomState room = Some s /\ alice_id ∈ map id (players s).
Proof.
  intros room.
  assert (Hreach : reachable room).
  { eapply rtc_r; [exact scenario2_reachable | apply step_fetch]. }
  assert (H1 : sessions room !! 1%nat = Some alice_id) by by vm_compute.
  split; [exact Hreach |]. split; [exact H1 |].
  exact (proj2 (proj1 (sessions_name_players room Hreach) 1%nat alice_id H1)).
Defined.
